(** * Confined roots and prefixed subtrees: a shallow embedding

    The development follows two Go sources, [src/io/fs/openfile.go] (the
    helper [OpenFile] and the prefixing wrapper [subFS] returned by [Sub]) and
    [src/os/root.go] ([Root], its path splitter [splitPathInRoot] and the
    [rootFS] adapter returned by [Root.FS]).

    Go strings are byte strings: they are modelled by [string], indexed with
    [String.get] and sliced with [substring].  A Go result pair
    [(value, error)] is a Rocq pair whose second component is an
    [option error] ([None] is the nil error).  Calls that leave the two
    source files (the wrapped store, the platform layer below [Root]) are
    events of a small free monad, so that a method that returns without
    calling anything is literally a [Ret]. *)

From Stdlib Require Import String Ascii List ZArith NArith Lia Bool Arith PeanoNat.
From Stdlib Require Import Sorting.Sorted Sorting.Permutation.
Import ListNotations.

Local Open Scope string_scope.
Local Open Scope list_scope.

(** ** Errors *)

(** The error values the two files build or pass on.  [PathError] and
    [LinkError] are the structs of io/fs and os; [errorString] is what
    [errors.New] returns; the remaining constructors are the sentinels. *)
Inductive error : Type :=
| PathError (Op Path : string) (Err : error)
| LinkError (Op Old New : string) (Err : error)
| errorString (s : string)
| ErrInvalid
| ErrPermission
| ErrExist
| ErrNotExist
| ErrClosed
| ErrBadPattern
| errPathEscapes
| ENOTDIR
| ELOOP.

(** ** Byte strings *)

Definition len (s : string) : nat := String.length s.

(** [s[j]], only ever evaluated under the guard [j < len(s)]. *)
Definition byteAt (s : string) (j : nat) : ascii :=
  match String.get j s with
  | Some c => c
  | None => Ascii.zero
  end.

(** [s[i:j]] *)
Definition slice (s : string) (i j : nat) : string := substring i (j - i) s.

(** [s[i:]] *)
Definition sliceFrom (s : string) (i : nat) : string := substring i (len s - i) s.

(** [parts[len(parts)-1]] under the guard [len(parts) > 0]. *)
Definition lastPart (parts : list string) : string := List.last parts EmptyString.

(** ** The platform table *)

(** [runtime.GOOS], [os.IsPathSeparator] and [rootCleanPath] are chosen per
    platform by build tags in files outside the two sources; the splitter
    takes them from a platform record. *)
Record Platform : Type := {
  GOOS : string;
  IsPathSeparator : ascii -> bool;
  rootCleanPath : string -> list string -> list string -> string * option error
}.

(** Unix: the separator is the slash and [rootCleanPath] leaves the path
    alone. *)
Definition unix : Platform := {|
  GOOS := "linux";
  IsPathSeparator := fun c => Ascii.eqb c "/"%char;
  rootCleanPath := fun s _ _ => (s, None)
|}.

(** A platform behaves like Unix for the splitter when it is not Windows
    and its only separator is the slash. *)
Definition unixlike (pf : Platform) : Prop :=
  String.eqb (GOOS pf) "windows" = false /\
  forall c, IsPathSeparator pf c = Ascii.eqb c "/"%char.

(** ** splitPathInRoot (root.go) *)

Section Split.
Variable pf : Platform.

(** The inner loop [for j < len(s) && IsPathSeparator(s[j]) { j++ }].
    It runs at most [len(s)] times, which is the fuel it is given. *)
Fixpoint skipSeparators (fuel : nat) (s : string) (j : nat) : nat :=
  match fuel with
  | O => j
  | S fuel' =>
      if Nat.ltb j (len s) && IsPathSeparator pf (byteAt s j)
      then skipSeparators fuel' s (S j)
      else j
  end.

(** The outer [for] loop over the indices [i] and [j].  [None] is only
    returned when the fuel runs out. *)
Fixpoint splitLoop (fuel : nat) (s : string) (parts : list string) (i j : nat)
  : option (list string * string) :=
  match fuel with
  | O => None
  | S fuel' =>
      if Nat.ltb j (len s) && negb (IsPathSeparator pf (byteAt s j))
      then splitLoop fuel' s parts i (S j)
      else
        let parts := parts ++ [slice s i j] in
        let partEnd := j in
        let j := skipSeparators (len s) s j in
        if Nat.eqb j (len s)
        then Some (parts, sliceFrom s partEnd)
        else
          let parts :=
            if String.eqb (lastPart parts) "." then removelast parts else parts in
          splitLoop fuel' s parts j j
  end.

Definition splitPathInRoot (s : string) (prefix suffix : list string)
  : option (list string * string * option error) :=
  if Nat.eqb (len s) 0 then Some ([], EmptyString, Some (errorString "empty path"))
  else if IsPathSeparator pf (byteAt s 0) then Some ([], EmptyString, Some errPathEscapes)
  else
    let '(s, prefix, suffix, err) :=
      if String.eqb (GOOS pf) "windows"
      then
        let '(s', err) := rootCleanPath pf s prefix suffix in
        (s', @nil string, @nil string, err)
      else (s, prefix, suffix, None) in
    match err with
    | Some e => Some ([], EmptyString, Some e)
    | None =>
        match splitLoop (S (len s)) s prefix 0 1 with
        | None => None
        | Some (parts, suffixSep) =>
            let parts :=
              if Nat.ltb 0 (List.length suffix) && Nat.ltb 0 (List.length parts)
                 && String.eqb (lastPart parts) "."
              then removelast parts else parts in
            Some (parts ++ suffix, suffixSep, None)
        end
    end.
End Split.

(** ** Calls that leave the source files *)

(** A program over the calls [E] it may issue: it returns, or issues one
    call and continues with the reply. *)
Inductive prog (E : Type -> Type) (A : Type) : Type :=
| Ret (a : A)
| Call {T : Type} (e : E T) (k : T -> prog E A).

Arguments Ret {E A} a.
Arguments Call {E A T} e k.

Fixpoint bind {E A B} (p : prog E A) (f : A -> prog E B) : prog E B :=
  match p with
  | Ret a => f a
  | Call e k => Call e (fun t => bind (k t) f)
  end.

Definition call {E T} (e : E T) : prog E T := Call e Ret.

Declare Scope prog_scope.
Delimit Scope prog_scope with prog.
Notation "x <- c ;; k" := (bind c (fun x => k))
  (at level 61, c at next level, right associativity) : prog_scope.
Notation "' pat <- c ;; k" := (bind c (fun x => match x with pat => k end))
  (at level 61, pat pattern, c at next level, right associativity) : prog_scope.
Local Open Scope prog_scope.

(** The collaborator answers each call from its own state [W]. *)
Definition handler (E : Type -> Type) (W : Type) : Type :=
  forall T, E T -> W -> T * W.

(** One issued call, of any reply type, with the reply it got. *)
Definition issued (E : Type -> Type) : Type := { T : Type & (E T * T)%type }.

Definition issue {E T} (e : E T) (t : T) : issued E := existT _ T (e, t).

(** Running a program against a collaborator: the value returned, the
    collaborator's final state and the calls issued, in order. *)
Fixpoint run {E W A} (h : handler E W) (p : prog E A) (w : W)
  : A * W * list (issued E) :=
  match p with
  | Ret a => (a, w, [])
  | Call e k =>
      let '(t, w') := h _ e w in
      let '(a, w'', tr) := run h (k t) w' in
      (a, w'', issue e t :: tr)
  end.

(** ** Data shared by the two packages *)

Definition FileMode : Type := Z.   (* uint32 *)
Definition Time : Type := Z.

Record FileInfo : Type := {
  fi_Name : string;
  fi_Size : Z;
  fi_Mode : FileMode;
  fi_IsDir : bool
}.

Record DirEntry : Type := {
  Name : string;
  IsDir : bool;
  Type_ : FileMode
}.

(** ** Package io/fs: OpenFile, Sub and subFS (openfile.go) *)

(** An [fs.FS] interface value, told apart by identity: some store
    implemented elsewhere, or a pointer to a [subFS] (its address, and the
    struct it points to, which no method ever writes). *)
Inductive FS : Type :=
| StoreFS (id : nat)
| PtrSubFS (addr : nat) (f : subFS)
with subFS : Type :=
| Build_subFS (fsys : FS) (dir : string).

Definition fsys (f : subFS) : FS := let 'Build_subFS x _ := f in x.
Definition dir (f : subFS) : string := let 'Build_subFS _ d := f in d.

(** An open [fs.File] or [fs.WriterFile], by identity. *)
Definition fsFile : Type := nat.

(** What the wrapper asks of the world outside openfile.go: a fresh object
    for [&subFS{...}], and the wrapped store.  The package-level helpers of
    io/fs ([Stat], [ReadDir], [Rename], ...) hand the call to the store they
    are given; each is one call on that store. *)
Inductive fsE : Type -> Type :=
| New_subFS (f : subFS) : fsE nat
| Fs_Open (fsys : FS) (name : string) : fsE (option fsFile * option error)
| Fs_OpenFile (fsys : FS) (name : string) (flag : Z) (perm : FileMode)
    : fsE (option fsFile * option error)
| Fs_Create (fsys : FS) (name : string) : fsE (option fsFile * option error)
| Fs_Stat (fsys : FS) (name : string) : fsE (option FileInfo * option error)
| Fs_ReadDir (fsys : FS) (name : string) : fsE (list DirEntry * option error)
| Fs_ReadFile (fsys : FS) (name : string) : fsE (list ascii * option error)
| Fs_ReadLink (fsys : FS) (name : string) : fsE (string * option error)
| Fs_Lstat (fsys : FS) (name : string) : fsE (option FileInfo * option error)
| Fs_Glob (fsys : FS) (pattern : string) : fsE (list string * option error)
| Fs_Sub (fsys : FS) (dir : string) : fsE (option FS * option error)
| Fs_Mkdir (fsys : FS) (name : string) (perm : FileMode) : fsE (option error)
| Fs_MkdirAll (fsys : FS) (name : string) (perm : FileMode) : fsE (option error)
| Fs_Rename (fsys : FS) (oldname newname : string) : fsE (option error)
| Fs_Chmod (fsys : FS) (name : string) (mode : FileMode) : fsE (option error)
| Fs_Chown (fsys : FS) (name : string) (uid gid : Z) : fsE (option error)
| Fs_Chtimes (fsys : FS) (name : string) (atime mtime : Time) : fsE (option error)
| Fs_Remove (fsys : FS) (name : string) : fsE (option error)
| Fs_RemoveAll (fsys : FS) (name : string) : fsE (option error)
| Fs_Symlink (fsys : FS) (oldname newname : string) : fsE (option error)
| Fs_Link (fsys : FS) (oldname newname : string) : fsE (option error).

(** Functions of other packages and files that openfile.go and root.go
    call and that compute on strings only. *)
Class Imports : Type := {
  (** [fs.ValidPath] *)
  ValidPath : string -> bool;
  (** [path.Join] of two elements *)
  path_Join : string -> string -> string;
  (** the error result of [path.Match] of the pattern on the empty name *)
  path_Match_err : string -> option error;
  (** whether a store implements [OpenFileFS], respectively [SubFS] *)
  implementsOpenFileFS : nat -> bool;
  implementsSubFS : nat -> bool
}.

Section IoFs.
Context {imp : Imports}.

(** [sym, ok := fsys.(OpenFileFS)]: a [*subFS] has the method. *)
Definition isOpenFileFS (fsys : FS) : bool :=
  match fsys with
  | StoreFS id => implementsOpenFileFS id
  | PtrSubFS _ _ => true
  end.

Definition OpenFile (fsys : FS) (name : string) (flag : Z) (perm : FileMode)
  : prog fsE (option fsFile * option error) :=
  if negb (isOpenFileFS fsys)
  then Ret (None, Some (PathError "openfile" name ErrInvalid))
  else call (Fs_OpenFile fsys name flag perm).

(** fullName maps name to the fully-qualified name dir/name. *)
Definition fullName (f : subFS) (op name : string) : string * option error :=
  if negb (ValidPath name)
  then (EmptyString, Some (PathError op name ErrInvalid))
  else (path_Join (dir f) name, None).

(** shorten maps name, which should start with f.dir, back to the suffix
    after f.dir. *)
Definition shorten (f : subFS) (name : string) : string * bool :=
  if String.eqb name (dir f) then (".", true)
  else if Nat.leb (len (dir f) + 2) (len name)
          && Ascii.eqb (byteAt name (len (dir f))) "/"%char
          && String.eqb (slice name 0 (len (dir f))) (dir f)
  then (sliceFrom name (len (dir f) + 1), true)
  else (EmptyString, false).

(** fixErr shortens any reported names in PathErrors by stripping f.dir. *)
Definition fixErr (f : subFS) (err : option error) : option error :=
  match err with
  | Some (PathError op path e) =>
      let '(short, ok) := shorten f path in
      if ok then Some (PathError op short e) else err
  | _ => err
  end.

Definition subFS_Open (f : subFS) (name : string)
  : prog fsE (option fsFile * option error) :=
  let '(full, err) := fullName f "open" name in
  match err with
  | Some _ => Ret (None, err)
  | None =>
      '(file, err) <- call (Fs_Open (fsys f) full) ;;
      Ret (file, fixErr f err)
  end.

Definition subFS_OpenFile (f : subFS) (name : string) (flag : Z) (perm : FileMode)
  : prog fsE (option fsFile * option error) :=
  let '(full, err) := fullName f "openfile" name in
  match err with
  | Some _ => Ret (None, err)
  | None =>
      '(file, err) <- OpenFile (fsys f) full flag perm ;;
      Ret (file, fixErr f err)
  end.

Definition subFS_Create (f : subFS) (name : string)
  : prog fsE (option fsFile * option error) :=
  let '(full, err) := fullName f "create" name in
  match err with
  | Some _ => Ret (None, err)
  | None =>
      '(file, err) <- call (Fs_Create (fsys f) full) ;;
      Ret (file, fixErr f err)
  end.

Definition subFS_Stat (f : subFS) (name : string)
  : prog fsE (option FileInfo * option error) :=
  let '(full, err) := fullName f "read" name in
  match err with
  | Some _ => Ret (None, err)
  | None => call (Fs_Stat (fsys f) full)
  end.

Definition subFS_ReadDir (f : subFS) (name : string)
  : prog fsE (list DirEntry * option error) :=
  let '(full, err) := fullName f "read" name in
  match err with
  | Some _ => Ret ([], err)
  | None =>
      '(d, err) <- call (Fs_ReadDir (fsys f) full) ;;
      Ret (d, fixErr f err)
  end.

Definition subFS_ReadFile (f : subFS) (name : string)
  : prog fsE (list ascii * option error) :=
  let '(full, err) := fullName f "read" name in
  match err with
  | Some _ => Ret ([], err)
  | None =>
      '(data, err) <- call (Fs_ReadFile (fsys f) full) ;;
      Ret (data, fixErr f err)
  end.

Definition subFS_ReadLink (f : subFS) (name : string)
  : prog fsE (string * option error) :=
  let '(full, err) := fullName f "readlink" name in
  match err with
  | Some _ => Ret (EmptyString, err)
  | None =>
      '(target, err) <- call (Fs_ReadLink (fsys f) full) ;;
      match err with
      | Some _ => Ret (EmptyString, fixErr f err)
      | None => Ret (target, None)
      end
  end.

Definition subFS_Lstat (f : subFS) (name : string)
  : prog fsE (option FileInfo * option error) :=
  let '(full, err) := fullName f "lstat" name in
  match err with
  | Some _ => Ret (None, err)
  | None =>
      '(info, err) <- call (Fs_Lstat (fsys f) full) ;;
      match err with
      | Some _ => Ret (None, fixErr f err)
      | None => Ret (info, None)
      end
  end.

(** The [for i, name := range list] loop of [Glob]: every
    match is replaced by its shortened form; the first match that cannot be
    shortened ends the loop with the error built from the (shadowing,
    hence empty) short name. *)
Fixpoint shortenAll (f : subFS) (names : list string) : list string * option error :=
  match names with
  | [] => ([], None)
  | name :: rest =>
      let '(name, ok) := shorten f name in
      if negb ok
      then ([], Some (errorString
               ("invalid result from inner fsys Glob: " ++ name ++ " not in " ++ dir f)%string))
      else
        let '(rest', err) := shortenAll f rest in
        match err with
        | Some _ => ([], err)
        | None => (name :: rest', None)
        end
  end.

Definition subFS_Glob (f : subFS) (pattern : string)
  : prog fsE (list string * option error) :=
  match path_Match_err pattern with
  | Some e => Ret ([], Some e)
  | None =>
      if String.eqb pattern "." then Ret (["."], None)
      else
        let full := (dir f ++ "/" ++ pattern)%string in
        '(names, err) <- call (Fs_Glob (fsys f) full) ;;
        let '(names', bad) := shortenAll f names in
        match bad with
        | Some _ => Ret ([], bad)
        | None => Ret (names', fixErr f err)
        end
  end.

(** The receiver of [Sub] is kept as the pointer [p] and the struct [f]
    it points to: the method may return the receiver itself. *)
Definition subFS_Sub (p : nat) (f : subFS) (dir : string)
  : prog fsE (option FS * option error) :=
  if String.eqb dir "." then Ret (Some (PtrSubFS p f), None)
  else
    let '(full, err) := fullName f "sub" dir in
    match err with
    | Some _ => Ret (None, err)
    | None =>
        let new := Build_subFS (fsys f) full in
        q <- call (New_subFS new) ;;
        Ret (Some (PtrSubFS q new), None)
    end.

Definition Sub (fsys : FS) (dir : string) : prog fsE (option FS * option error) :=
  if negb (ValidPath dir)
  then Ret (None, Some (PathError "sub" dir ErrInvalid))
  else if String.eqb dir "." then Ret (Some fsys, None)
  else
    match fsys with
    | PtrSubFS p f => subFS_Sub p f dir
    | StoreFS id =>
        if implementsSubFS id then call (Fs_Sub fsys dir)
        else
          let new := Build_subFS fsys dir in
          q <- call (New_subFS new) ;;
          Ret (Some (PtrSubFS q new), None)
    end.

Definition subFS_Mkdir (f : subFS) (name : string) (perm : FileMode) : prog fsE (option error) :=
  let '(full, err) := fullName f "mkdir" name in
  match err with
  | Some _ => Ret err
  | None =>
      err <- call (Fs_Mkdir (fsys f) full perm) ;;
      Ret (fixErr f err)
  end.

Definition subFS_MkdirAll (f : subFS) (name : string) (perm : FileMode) : prog fsE (option error) :=
  let '(full, err) := fullName f "MkdirAll" name in
  match err with
  | Some _ => Ret err
  | None =>
      err <- call (Fs_MkdirAll (fsys f) full perm) ;;
      Ret (fixErr f err)
  end.

Definition subFS_Rename (f : subFS) (oldname newname : string) : prog fsE (option error) :=
  let '(fullOld, err) := fullName f "rename" oldname in
  match err with
  | Some _ => Ret err
  | None =>
      let '(fullNew, err) := fullName f "rename" newname in
      match err with
      | Some _ => Ret err
      | None =>
          err <- call (Fs_Rename (fsys f) fullOld fullNew) ;;
          Ret (fixErr f err)
      end
  end.

Definition subFS_Chmod (f : subFS) (name : string) (mode : FileMode) : prog fsE (option error) :=
  let '(full, err) := fullName f "chmod" name in
  match err with
  | Some _ => Ret err
  | None =>
      err <- call (Fs_Chmod (fsys f) full mode) ;;
      Ret (fixErr f err)
  end.

Definition subFS_Chown (f : subFS) (name : string) (uid gid : Z) : prog fsE (option error) :=
  let '(full, err) := fullName f "chown" name in
  match err with
  | Some _ => Ret err
  | None =>
      err <- call (Fs_Chown (fsys f) full uid gid) ;;
      Ret (fixErr f err)
  end.

Definition subFS_Chtimes (f : subFS) (name : string) (atime mtime : Time) : prog fsE (option error) :=
  let '(full, err) := fullName f "chtimes" name in
  match err with
  | Some _ => Ret err
  | None =>
      err <- call (Fs_Chtimes (fsys f) full atime mtime) ;;
      Ret (fixErr f err)
  end.

Definition subFS_Remove (f : subFS) (name : string) : prog fsE (option error) :=
  let '(full, err) := fullName f "remove" name in
  match err with
  | Some _ => Ret err
  | None =>
      err <- call (Fs_Remove (fsys f) full) ;;
      Ret (fixErr f err)
  end.

Definition subFS_RemoveAll (f : subFS) (name : string) : prog fsE (option error) :=
  let '(full, err) := fullName f "RemoveAll" name in
  match err with
  | Some _ => Ret err
  | None =>
      err <- call (Fs_RemoveAll (fsys f) full) ;;
      Ret (fixErr f err)
  end.

Definition subFS_Symlink (f : subFS) (oldname newname : string) : prog fsE (option error) :=
  let '(fullOld, err) := fullName f "symlink" oldname in
  match err with
  | Some _ => Ret err
  | None =>
      let '(fullNew, err) := fullName f "symlink" newname in
      match err with
      | Some _ => Ret err
      | None =>
          err <- call (Fs_Symlink (fsys f) fullOld fullNew) ;;
          Ret (fixErr f err)
      end
  end.

Definition subFS_Link (f : subFS) (oldname newname : string) : prog fsE (option error) :=
  let '(fullOld, err) := fullName f "link" oldname in
  match err with
  | Some _ => Ret err
  | None =>
      let '(fullNew, err) := fullName f "link" newname in
      match err with
      | Some _ => Ret err
      | None =>
          err <- call (Fs_Link (fsys f) fullOld fullNew) ;;
          Ret (fixErr f err)
      end
  end.
End IoFs.

(** ** Package os: Root, splitPathInRoot's callers and rootFS (root.go) *)

(** Open flags, with the values of syscall on linux/amd64. *)
Definition O_RDONLY : Z := 0%Z.
Definition O_WRONLY : Z := 1%Z.
Definition O_RDWR : Z := 2%Z.
Definition O_APPEND : Z := 1024%Z.
Definition O_CREATE : Z := 64%Z.
Definition O_EXCL : Z := 128%Z.
Definition O_SYNC : Z := 1052672%Z.
Definition O_TRUNC : Z := 512%Z.

(** Maximum number of symbolic links we will follow when resolving a file
    in a root. *)
Definition rootMaxSymlinks : nat := 8.

(** A [*Root], by the identity of the [root] it holds. *)
Definition Root : Type := nat.

(** An [*os.File]: the descriptor and the one field root.go writes. *)
Record File : Type := {
  fd : nat;
  appendMode : bool
}.

(** What root.go asks of the rest of package os, of internal/testlog and
    of the files it opened.  A [*File] handed to a method may be nil, hence
    the [option]. *)
Inductive rootE : Type -> Type :=
| testlog_Logger : rootE bool
| log_Open (name : string) : rootE unit
| log_Stat (name : string) : rootE unit
| testlog_Open (name : string) : rootE unit
| openRootNolog (name : string) : rootE (option Root * option error)
| root_Name (r : Root) : rootE string
| root_Close (r : Root) : rootE (option error)
| rootOpenFileNolog (r : Root) (name : string) (flag : Z) (perm : FileMode)
    : rootE (option File * option error)
| openRootInRoot (r : Root) (name : string) : rootE (option Root * option error)
| rootChmod (r : Root) (name : string) (mode : FileMode) : rootE (option error)
| rootMkdir (r : Root) (name : string) (perm : FileMode) : rootE (option error)
| rootMkdirAll (r : Root) (name : string) (perm : FileMode) : rootE (option error)
| rootChown (r : Root) (name : string) (uid gid : Z) : rootE (option error)
| rootLchown (r : Root) (name : string) (uid gid : Z) : rootE (option error)
| rootChtimes (r : Root) (name : string) (atime mtime : Time) : rootE (option error)
| rootRemove (r : Root) (name : string) : rootE (option error)
| rootRemoveAll (r : Root) (name : string) : rootE (option error)
| rootStat (r : Root) (name : string) (lstat : bool)
    : rootE (option FileInfo * option error)
| rootReadlink (r : Root) (name : string) : rootE (string * option error)
| rootRename (r : Root) (oldname newname : string) : rootE (option error)
| rootLink (r : Root) (oldname newname : string) : rootE (option error)
| rootSymlink (r : Root) (oldname newname : string) : rootE (option error)
| File_ReadDir (f : option File) (n : Z) : rootE (list DirEntry * option error)
| File_Close (f : option File) : rootE (option error)
| File_Write (f : option File) (data : list ascii) : rootE (Z * option error)
| readFileContents (f : option File) : rootE (list ascii * option error).

(** String functions root.go takes from other files and packages. *)
Class OsImports : Type := {
  (** [joinPath] of package os *)
  joinPath : string -> string -> string;
  (** [stringslite.IndexByte] *)
  IndexByte : string -> ascii -> Z
}.

(** Modelled from the spec: [bytealg.CompareString] (package internal/bytealg
    is not among the sources), the byte-wise order the spec names for
    directory listings: -1, 0 or +1 as [a] is below, equal to or above [b],
    bytes compared as unsigned numbers and a proper prefix below its
    extensions. *)
Fixpoint CompareString (a b : string) : Z :=
  match a, b with
  | EmptyString, EmptyString => 0%Z
  | EmptyString, String _ _ => (-1)%Z
  | String _ _, EmptyString => 1%Z
  | String x a', String y b' =>
      if Nat.ltb (nat_of_ascii x) (nat_of_ascii y) then (-1)%Z
      else if Nat.ltb (nat_of_ascii y) (nat_of_ascii x) then 1%Z
      else CompareString a' b'
  end.

(** Modelled from the spec: [slices.SortFunc] (package slices is not among
    the sources), which puts a slice in ascending order as [cmp] decides;
    here by insertion. *)
Fixpoint sortInsert {A} (cmp : A -> A -> Z) (x : A) (l : list A) : list A :=
  match l with
  | [] => [x]
  | y :: l' => if Z.leb (cmp x y) 0 then x :: l else y :: sortInsert cmp x l'
  end.

Definition SortFunc {A} (x : list A) (cmp : A -> A -> Z) : list A :=
  fold_right (sortInsert cmp) [] x.

(** Entries in byte-wise ascending order of their names. *)
Definition nameLe (a b : DirEntry) : Prop := String.leb (Name a) (Name b) = true.

Section Os.
Context {imp : Imports} {osimp : OsImports}.
Variable pf : Platform.

Definition Root_logOpen (r : Root) (name : string) : prog rootE unit :=
  log <- call (E := rootE) testlog_Logger ;;
  if log
  then dirname <- call (root_Name r) ;; call (log_Open (joinPath dirname name))
  else Ret tt.

Definition Root_logStat (r : Root) (name : string) : prog rootE unit :=
  log <- call (E := rootE) testlog_Logger ;;
  if log
  then dirname <- call (root_Name r) ;; call (log_Stat (joinPath dirname name))
  else Ret tt.

Definition OpenRoot (name : string) : prog rootE (option Root * option error) :=
  _ <- call (testlog_Open name) ;;
  call (openRootNolog name).

Definition Root_Close (r : Root) : prog rootE (option error) :=
  call (root_Close r).

Definition Root_OpenFile (r : Root) (name : string) (flag : Z) (perm : FileMode)
  : prog rootE (option File * option error) :=
  if negb (Z.eqb (Z.land perm 511%Z) perm)
  then Ret (None, Some (PathError "openat" name (errorString "unsupported file mode")))
  else
    _ <- Root_logOpen r name ;;
    '(rf, err) <- call (rootOpenFileNolog r name flag perm) ;;
    match err with
    | Some _ => Ret (None, err)
    | None =>
        let rf := option_map
                    (fun rf => {| fd := fd rf;
                                  appendMode := negb (Z.eqb (Z.land flag O_APPEND) 0%Z) |})
                    rf in
        Ret (rf, None)
    end.

Definition Root_Open (r : Root) (name : string)
  : prog rootE (option File * option error) :=
  Root_OpenFile r name O_RDONLY 0%Z.

Definition Root_Create (r : Root) (name : string)
  : prog rootE (option File * option error) :=
  Root_OpenFile r name (Z.lor (Z.lor O_RDWR O_CREATE) O_TRUNC) 438%Z.

Definition Root_OpenRoot (r : Root) (name : string)
  : prog rootE (option Root * option error) :=
  _ <- Root_logOpen r name ;;
  call (openRootInRoot r name).

Definition Root_Chmod (r : Root) (name : string) (mode : FileMode)
  : prog rootE (option error) :=
  call (rootChmod r name mode).

Definition Root_Mkdir (r : Root) (name : string) (perm : FileMode)
  : prog rootE (option error) :=
  if negb (Z.eqb (Z.land perm 511%Z) perm)
  then Ret (Some (PathError "mkdirat" name (errorString "unsupported file mode")))
  else call (rootMkdir r name perm).

Definition Root_MkdirAll (r : Root) (name : string) (perm : FileMode)
  : prog rootE (option error) :=
  if negb (Z.eqb (Z.land perm 511%Z) perm)
  then Ret (Some (PathError "mkdirat" name (errorString "unsupported file mode")))
  else call (rootMkdirAll r name perm).

Definition Root_Chown (r : Root) (name : string) (uid gid : Z)
  : prog rootE (option error) :=
  call (rootChown r name uid gid).

Definition Root_Lchown (r : Root) (name : string) (uid gid : Z)
  : prog rootE (option error) :=
  call (rootLchown r name uid gid).

Definition Root_Chtimes (r : Root) (name : string) (atime mtime : Time)
  : prog rootE (option error) :=
  call (rootChtimes r name atime mtime).

Definition Root_Remove (r : Root) (name : string) : prog rootE (option error) :=
  call (rootRemove r name).

Definition Root_RemoveAll (r : Root) (name : string) : prog rootE (option error) :=
  call (rootRemoveAll r name).

Definition Root_Stat (r : Root) (name : string)
  : prog rootE (option FileInfo * option error) :=
  _ <- Root_logStat r name ;;
  call (rootStat r name false).

Definition Root_Lstat (r : Root) (name : string)
  : prog rootE (option FileInfo * option error) :=
  _ <- Root_logStat r name ;;
  call (rootStat r name true).

Definition Root_Readlink (r : Root) (name : string)
  : prog rootE (string * option error) :=
  call (rootReadlink r name).

Definition Root_Rename (r : Root) (oldname newname : string)
  : prog rootE (option error) :=
  call (rootRename r oldname newname).

Definition Root_Link (r : Root) (oldname newname : string)
  : prog rootE (option error) :=
  call (rootLink r oldname newname).

Definition Root_Symlink (r : Root) (oldname newname : string)
  : prog rootE (option error) :=
  call (rootSymlink r oldname newname).

(** isValidRootFSPath reports whether name is a valid filename to pass a
    Root.FS method. *)
Definition isValidRootFSPath (name : string) : bool :=
  if negb (ValidPath name) then false
  else if String.eqb (GOOS pf) "windows" && Z.leb 0%Z (IndexByte name "092"%char)
  then false
  else true.
Definition Root_ReadFile (r : Root) (name : string)
  : prog rootE (list ascii * option error) :=
  '(f, err) <- Root_Open r name ;;
  match err with
  | Some _ => Ret ([], err)
  | None =>
      res <- call (readFileContents f) ;;
      _ <- call (File_Close f) ;;
      Ret res
  end.

Definition Root_WriteFile (r : Root) (name : string) (data : list ascii) (perm : FileMode)
  : prog rootE (option error) :=
  '(f, err) <- Root_OpenFile r name (Z.lor (Z.lor O_WRONLY O_CREATE) O_TRUNC) perm ;;
  match err with
  | Some _ => Ret err
  | None =>
      '(_, err) <- call (File_Write f data) ;;
      err1 <- call (File_Close f) ;;
      match err with
      | None => Ret err1
      | Some _ => Ret err
      end
  end.

(** A [*rootFS] is the [*Root] it was converted from. *)
Definition Root_FS (r : Root) : Root := r.

Definition rootFS_Open (rfs : Root) (name : string)
  : prog rootE (option File * option error) :=
  let r := rfs in
  if negb (isValidRootFSPath name)
  then Ret (None, Some (PathError "open" name ErrInvalid))
  else
    '(f, err) <- Root_Open r name ;;
    match err with
    | Some _ => Ret (None, err)
    | None => Ret (f, None)
    end.

Definition rootFS_OpenFile (rfs : Root) (name : string) (flag : Z) (perm : FileMode) : prog rootE (option File * option error) :=
  let r := rfs in
  if negb (isValidRootFSPath name)
  then Ret (None, Some (PathError "open" name ErrInvalid))
  else Root_OpenFile r name flag perm.

Definition rootFS_Create (rfs : Root) (name : string) : prog rootE (option File * option error) :=
  let r := rfs in
  if negb (isValidRootFSPath name)
  then Ret (None, Some (PathError "create" name ErrInvalid))
  else Root_Create r name.

Definition rootFS_ReadDir (rfs : Root) (name : string)
  : prog rootE (list DirEntry * option error) :=
  let r := rfs in
  if negb (isValidRootFSPath name)
  then Ret ([], Some (PathError "readdir" name ErrInvalid))
  else
    '(f, err) <- Root_Open r name ;;
    match err with
    | Some _ => Ret ([], err)
    | None =>
        '(dirs, err) <- call (File_ReadDir f (-1)%Z) ;;
        let dirs := SortFunc dirs (fun a b => CompareString (Name a) (Name b)) in
        _ <- call (File_Close f) ;;
        Ret (dirs, err)
    end.

Definition rootFS_ReadFile (rfs : Root) (name : string)
  : prog rootE (list ascii * option error) :=
  let r := rfs in
  if negb (isValidRootFSPath name)
  then Ret ([], Some (PathError "readfile" name ErrInvalid))
  else
    '(f, err) <- Root_Open r name ;;
    match err with
    | Some _ => Ret ([], err)
    | None =>
        res <- call (readFileContents f) ;;
        _ <- call (File_Close f) ;;
        Ret res
    end.

Definition rootFS_Stat (rfs : Root) (name : string) : prog rootE (option FileInfo * option error) :=
  let r := rfs in
  if negb (isValidRootFSPath name)
  then Ret (None, Some (PathError "stat" name ErrInvalid))
  else Root_Stat r name.

Definition rootFS_Rename (rfs : Root) (oldname newname : string)
  : prog rootE (option error) :=
  let r := rfs in
  if negb (isValidRootFSPath oldname || isValidRootFSPath newname)
  then Ret (Some (LinkError "rename" oldname newname ErrInvalid))
  else Root_Rename r oldname newname.

Definition rootFS_Remove (rfs : Root) (name : string) : prog rootE (option error) :=
  let r := rfs in
  if negb (isValidRootFSPath name)
  then Ret (Some (PathError "remove" name ErrInvalid))
  else Root_Remove r name.

Definition rootFS_RemoveAll (rfs : Root) (name : string) : prog rootE (option error) :=
  let r := rfs in
  if negb (isValidRootFSPath name)
  then Ret (Some (PathError "remove" name ErrInvalid))
  else Root_RemoveAll r name.

Definition rootFS_Mkdir (rfs : Root) (name : string) (perm : FileMode) : prog rootE (option error) :=
  let r := rfs in
  if negb (isValidRootFSPath name)
  then Ret (Some (PathError "mkdir" name ErrInvalid))
  else Root_Mkdir r name perm.

Definition rootFS_MkdirAll (rfs : Root) (name : string) (perm : FileMode) : prog rootE (option error) :=
  let r := rfs in
  if negb (isValidRootFSPath name)
  then Ret (Some (PathError "mkdir" name ErrInvalid))
  else Root_MkdirAll r name perm.

Definition rootFS_Chmod (rfs : Root) (name : string) (mode : FileMode) : prog rootE (option error) :=
  let r := rfs in
  if negb (isValidRootFSPath name)
  then Ret (Some (PathError "chmod" name ErrInvalid))
  else Root_Chmod r name mode.

Definition rootFS_Chown (rfs : Root) (name : string) (uid gid : Z) : prog rootE (option error) :=
  let r := rfs in
  if negb (isValidRootFSPath name)
  then Ret (Some (PathError "chown" name ErrInvalid))
  else Root_Chown r name uid gid.

Definition rootFS_Chtimes (rfs : Root) (name : string) (atime mtime : Time) : prog rootE (option error) :=
  let r := rfs in
  if negb (isValidRootFSPath name)
  then Ret (Some (PathError "chtimes" name ErrInvalid))
  else Root_Chtimes r name atime mtime.

Definition rootFS_Link (rfs : Root) (oldname newname : string) : prog rootE (option error) :=
  let r := rfs in
  if negb (isValidRootFSPath oldname)
  then Ret (Some (PathError "link" oldname ErrInvalid))
  else if negb (isValidRootFSPath newname)
  then Ret (Some (PathError "link" newname ErrInvalid))
  else Root_Link r oldname newname.

Definition rootFS_Symlink (rfs : Root) (oldname newname : string) : prog rootE (option error) :=
  let r := rfs in
  if negb (isValidRootFSPath oldname)
  then Ret (Some (PathError "symlink" oldname ErrInvalid))
  else if negb (isValidRootFSPath newname)
  then Ret (Some (PathError "symlink" newname ErrInvalid))
  else Root_Symlink r oldname newname.

Definition rootFS_Lstat (rfs : Root) (name : string) : prog rootE (option FileInfo * option error) :=
  let r := rfs in
  if negb (isValidRootFSPath name)
  then Ret (None, Some (PathError "lstat" name ErrInvalid))
  else Root_Lstat r name.

Definition rootFS_ReadLink (rfs : Root) (name : string) : prog rootE (string * option error) :=
  let r := rfs in
  if negb (isValidRootFSPath name)
  then Ret (EmptyString, Some (PathError "readlink" name ErrInvalid))
  else Root_Readlink r name.
End Os.

(** ** The imported string functions, as the specification describes them *)

(** Modelled from the spec: the UTF-8 check behind "each a UTF-8-like
    string" ([utf8.ValidString]; package unicode/utf8 is not among the
    sources).  [need] continuation bytes are still owed and the next one
    must lie in [lo, hi]. *)
Fixpoint utf8From (need lo hi : nat) (s : string) : bool :=
  match s with
  | EmptyString => Nat.eqb need 0
  | String c s' =>
      let b := nat_of_ascii c in
      match need with
      | O =>
          if Nat.ltb b 128 then utf8From 0 128 191 s'
          else if Nat.leb 194 b && Nat.leb b 223 then utf8From 1 128 191 s'
          else if Nat.eqb b 224 then utf8From 2 160 191 s'
          else if (Nat.leb 225 b && Nat.leb b 236) || Nat.eqb b 238 || Nat.eqb b 239
               then utf8From 2 128 191 s'
          else if Nat.eqb b 237 then utf8From 2 128 159 s'
          else if Nat.eqb b 240 then utf8From 3 144 191 s'
          else if Nat.leb 241 b && Nat.leb b 243 then utf8From 3 128 191 s'
          else if Nat.eqb b 244 then utf8From 3 128 143 s'
          else false
      | S n => if Nat.leb lo b && Nat.leb b hi then utf8From n 128 191 s' else false
      end
  end.

Definition utf8_ValidString (s : string) : bool := utf8From 0 128 191 s.

(** The slash-delimited components of a name, empty ones included. *)
Fixpoint components (s : string) : list string :=
  match s with
  | EmptyString => [EmptyString]
  | String c s' =>
      if Ascii.eqb c "/"%char then EmptyString :: components s'
      else
        match components s' with
        | x :: rest => String c x :: rest
        | [] => [String c EmptyString]
        end
  end.

Fixpoint hasNUL (s : string) : bool :=
  match s with
  | EmptyString => false
  | String c s' => Ascii.eqb c Ascii.zero || hasNUL s'
  end.

(** Modelled from the spec: [fs.ValidPath] (fs.go of io/fs is not among
    the sources), by the specification's rule for a relative name: "an
    ordered sequence of non-empty path components, each a UTF-8-like
    string, no component equal to "..", no leading separator, no embedded
    NUL".  A leading separator makes the first component empty. *)
Definition fs_ValidPath (name : string) : bool :=
  utf8_ValidString name
  && negb (hasNUL name)
  && forallb (fun elem => negb (String.eqb elem EmptyString) && negb (String.eqb elem ".."))
             (components name).

(** Modelled from the spec: [path.Join] of a prefix and a name (package path
    is not among the sources): "rewriting the incoming relative name to
    prefix + "/" + name". *)
Definition spec_path_Join (prefix name : string) : string :=
  (prefix ++ "/" ++ name)%string.

(** Modelled from the spec: the error of [path.Match] on the empty name (package
    path is not among the sources), for "validate the pattern is
    syntactically well-formed": a bracket that is opened is closed again and
    the pattern does not end inside an escape.  [inClass] tells whether a
    bracket is open. *)
Fixpoint wellFormedPattern (inClass : bool) (p : string) : bool :=
  match p with
  | EmptyString => negb inClass
  | String c p' =>
      if Ascii.eqb c "092"%char then
        match p' with
        | EmptyString => false
        | String _ p'' => wellFormedPattern inClass p''
        end
      else if Ascii.eqb c "["%char then
        wellFormedPattern true p'
      else if Ascii.eqb c "]"%char then wellFormedPattern false p'
      else wellFormedPattern inClass p'
  end.

Definition spec_path_Match_err (pattern : string) : option error :=
  if wellFormedPattern false pattern then None else Some ErrBadPattern.

(** Modelled from the spec: [stringslite.IndexByte] (package
    internal/stringslite is not among the sources): the index of the first
    [c] in [s], or -1. *)
Fixpoint spec_IndexByte (s : string) (c : ascii) : Z :=
  match s with
  | EmptyString => (-1)%Z
  | String x s' =>
      if Ascii.eqb x c then 0%Z
      else let i := spec_IndexByte s' c in if Z.ltb i 0 then (-1)%Z else (i + 1)%Z
  end.

(** The imports as the specification describes them, over stores that
    offer neither [OpenFile] nor [Sub]. *)
Definition spec_imports : Imports := {|
  ValidPath := fs_ValidPath;
  path_Join := spec_path_Join;
  path_Match_err := spec_path_Match_err;
  implementsOpenFileFS := fun _ => false;
  implementsSubFS := fun _ => false
|}.

Definition spec_os_imports : OsImports := {|
  joinPath := spec_path_Join;
  IndexByte := spec_IndexByte
|}.

(** ** Collaborators to run the methods against *)

(** A store in which every lookup fails with a [PathError] on the name it
    was given, except that [ReadLink] answers [target] and [Glob] answers
    [matches]. *)
Definition stubStore (target : string) (matches : list string) : handler fsE unit :=
  fun T e w =>
    match e in fsE T return T * unit with
    | New_subFS _ => (0, w)
    | Fs_Open _ name => ((None, Some (PathError "open" name ErrNotExist)), w)
    | Fs_OpenFile _ name _ _ => ((None, Some (PathError "open" name ErrNotExist)), w)
    | Fs_Create _ name => ((None, Some (PathError "open" name ErrNotExist)), w)
    | Fs_Stat _ name => ((None, Some (PathError "stat" name ErrNotExist)), w)
    | Fs_ReadDir _ name => (([], Some (PathError "open" name ErrNotExist)), w)
    | Fs_ReadFile _ name => (([], Some (PathError "open" name ErrNotExist)), w)
    | Fs_ReadLink _ _ => ((target, None), w)
    | Fs_Lstat _ name => ((None, Some (PathError "lstat" name ErrNotExist)), w)
    | Fs_Glob _ _ => ((matches, None), w)
    | Fs_Sub _ d => ((None, Some (PathError "sub" d ErrNotExist)), w)
    | Fs_Mkdir _ name _ => (Some (PathError "mkdir" name ErrNotExist), w)
    | Fs_MkdirAll _ name _ => (Some (PathError "mkdir" name ErrNotExist), w)
    | Fs_Rename _ o _ => (Some (PathError "rename" o ErrNotExist), w)
    | Fs_Chmod _ name _ => (Some (PathError "chmod" name ErrNotExist), w)
    | Fs_Chown _ name _ _ => (Some (PathError "chown" name ErrNotExist), w)
    | Fs_Chtimes _ name _ _ => (Some (PathError "chtimes" name ErrNotExist), w)
    | Fs_Remove _ name => (Some (PathError "remove" name ErrNotExist), w)
    | Fs_RemoveAll _ name => (Some (PathError "remove" name ErrNotExist), w)
    | Fs_Symlink _ o _ => (Some (PathError "symlink" o ErrNotExist), w)
    | Fs_Link _ o _ => (Some (PathError "link" o ErrNotExist), w)
    end.

(** A platform without a test log, in which file 3 is the only thing that
    opens, its directory read returns [entries], and every other operation
    reports that the path escapes. *)
Definition stubPlatform (entries : list DirEntry) : handler rootE unit :=
  fun T e w =>
    match e in rootE T return T * unit with
    | testlog_Logger => (false, w)
    | log_Open _ => (tt, w)
    | log_Stat _ => (tt, w)
    | testlog_Open _ => (tt, w)
    | openRootNolog name => ((None, Some (PathError "open" name errPathEscapes)), w)
    | root_Name _ => ("root", w)
    | root_Close _ => (None, w)
    | rootOpenFileNolog _ name _ _ =>
        if String.eqb name "dir"
        then ((Some {| fd := 3; appendMode := false |}, None), w)
        else ((None, Some (PathError "openat" name errPathEscapes)), w)
    | openRootInRoot _ name => ((None, Some (PathError "openat" name errPathEscapes)), w)
    | rootChmod _ name _ => (Some (PathError "chmodat" name errPathEscapes), w)
    | rootMkdir _ name _ => (Some (PathError "mkdirat" name errPathEscapes), w)
    | rootMkdirAll _ name _ => (Some (PathError "mkdirat" name errPathEscapes), w)
    | rootChown _ name _ _ => (Some (PathError "chownat" name errPathEscapes), w)
    | rootLchown _ name _ _ => (Some (PathError "lchownat" name errPathEscapes), w)
    | rootChtimes _ name _ _ => (Some (PathError "chtimesat" name errPathEscapes), w)
    | rootRemove _ name => (Some (PathError "unlinkat" name errPathEscapes), w)
    | rootRemoveAll _ name => (Some (PathError "unlinkat" name errPathEscapes), w)
    | rootStat _ name _ => ((None, Some (PathError "statat" name errPathEscapes)), w)
    | rootReadlink _ name => ((EmptyString, Some (PathError "readlinkat" name errPathEscapes)), w)
    | rootRename _ o n => (Some (LinkError "renameat" o n errPathEscapes), w)
    | rootLink _ o n => (Some (LinkError "linkat" o n errPathEscapes), w)
    | rootSymlink _ o n => (Some (LinkError "symlinkat" o n errPathEscapes), w)
    | File_ReadDir _ _ => ((entries, None), w)
    | File_Close _ => (None, w)
    | File_Write _ _ => (0%Z, None, w)
    | readFileContents _ => (([], None), w)
    end.

(** The wrapper [Sub] builds over store 0 for the directory "x". *)
Definition xSub : subFS := Build_subFS (StoreFS 0) "x".

(** ** Names below a directory *)

(** [m] is the directory [d] itself or a name below it: [d], a slash and
    something more. *)
Definition below (d m : string) : bool :=
  String.eqb m d
  || (String.prefix (d ++ "/") m && Nat.ltb (String.length d + 1) (String.length m)).

(** ** Descriptors in a trace *)

(** The descriptor a call opened: the open below the root, when it
    answered without an error. *)
Definition openedFd (x : issued rootE) : list (option nat) :=
  let '(existT _ T (e, t)) := x in
  match e in rootE T return T -> list (option nat) with
  | rootOpenFileNolog _ _ _ _ =>
      fun t => match snd t with
               | None => [option_map fd (fst t)]
               | Some _ => []
               end
  | _ => fun _ => []
  end t.

(** The descriptor a call closed. *)
Definition closedFd (x : issued rootE) : list (option nat) :=
  let '(existT _ T (e, t)) := x in
  match e in rootE T return T -> list (option nat) with
  | File_Close f => fun _ => [option_map fd f]
  | _ => fun _ => []
  end t.

(** ** Resolution beneath a root, as the specification describes it *)

(** What a directory holds under a name. *)
Inductive node : Type :=
| NDir (handle : nat)
| NFile
| NSymlink (target : string).

(** "Resolution state (ephemeral, internal to one call): a current
    directory handle (initially the root handle), a remaining component
    queue, a symlink-follow counter bounded by a fixed maximum (8), and a
    flag for whether the final component must itself be traversed as a
    directory". *)
Record resolution : Type := {
  current : nat;
  queue : list string;
  symlinks : nat;
  mustDir : bool
}.

Inductive resolved : Type :=
| Reached (n : node)
| Failed (e : error).

Section Resolve.
Variable pf : Platform.
(** The directory tree the platform layer exposes: the entry a directory
    handle holds under a single component. *)
Variable lookup : nat -> string -> option node.
(** Whether the operation follows a symlink in the last component (Open,
    Stat) or works on the link itself (Lstat, Readlink). *)
Variable followFinal : bool.

Definition isNil {A} (l : list A) : bool :=
  match l with [] => true | _ => false end.

(** Modelled from the spec: one step of the resolution engine of
    ConfinedRoot (the functions that walk the components, doInRoot and
    its callers, are not among the sources).  "Starting from the root's own
    handle, resolve components one at a time: for all but the last, the
    component must name a directory reachable directly beneath the current
    handle -- if it is a symlink, read its target, and if the target is
    absolute or attempts to ascend past the confinement boundary, fail with
    an escape error; otherwise splice the target's components into the
    remaining queue and continue from the same current handle, incrementing
    and checking the symlink counter."  The counter is checked only when
    [bounded] is set, which it is in the engine; the unchecked walk serves
    to say what a cyclic link is.  The step ends the walk ([Some (inr _)]),
    goes on from a new state ([Some (inl _)]), or has no result when the
    splitter has none. *)
Definition resolveStep (bounded : bool) (st : resolution)
  : option (resolution + resolved) :=
  match queue st with
  | [] => Some (inr (Reached (NDir (current st))))
  | c :: rest =>
      if String.eqb c ".." then Some (inr (Failed errPathEscapes))
      else if String.eqb c "." then
        if isNil rest then Some (inr (Reached (NDir (current st))))
        else Some (inl {| current := current st; queue := rest;
                          symlinks := symlinks st; mustDir := mustDir st |})
      else
        match lookup (current st) c with
        | None => Some (inr (Failed ErrNotExist))
        | Some (NDir h) =>
            if isNil rest then Some (inr (Reached (NDir h)))
            else Some (inl {| current := h; queue := rest;
                              symlinks := symlinks st; mustDir := mustDir st |})
        | Some NFile =>
            if isNil rest && negb (mustDir st) then Some (inr (Reached NFile))
            else Some (inr (Failed ENOTDIR))
        | Some (NSymlink target) =>
            if isNil rest && negb followFinal && negb (mustDir st)
            then Some (inr (Reached (NSymlink target)))
            else
              let n := S (symlinks st) in
              if bounded && Nat.ltb rootMaxSymlinks n
              then Some (inr (Failed ELOOP))
              else
                match splitPathInRoot pf target [] rest with
                | None => None
                | Some (_, _, Some e) => Some (inr (Failed e))
                | Some (parts, suffixSep, None) =>
                    Some (inl {| current := current st; queue := parts;
                                 symlinks := n;
                                 mustDir := if isNil rest
                                            then negb (String.eqb suffixSep EmptyString)
                                            else mustDir st |})
                end
        end
  end.

(** The walk: steps until one ends it.  The result comes with the number
    of symlinks followed. *)
Fixpoint resolveLoop (bounded : bool) (fuel : nat) (st : resolution)
  : option (resolved * nat) :=
  match fuel with
  | O => None
  | S fuel' =>
      match resolveStep bounded st with
      | None => None
      | Some (inr r) => Some (r, symlinks st)
      | Some (inl st') => resolveLoop bounded fuel' st'
      end
  end.

(** Modelled from the spec: resolving [name] beneath the directory
    [root]: "split the name into components via PathResolver", then walk
    from the root's handle with the counter at zero. *)
Definition resolveInRoot (bounded : bool) (fuel : nat) (root : nat) (name : string)
  : option (resolved * nat) :=
  match splitPathInRoot pf name [] [] with
  | None => None
  | Some (_, _, Some e) => Some (Failed e, 0)
  | Some (parts, suffixSep, None) =>
      resolveLoop bounded fuel
        {| current := root; queue := parts; symlinks := 0;
           mustDir := negb (String.eqb suffixSep EmptyString) |}
  end.

(** A name runs into a cyclic symbolic link when following links without
    a bound never comes to an end. *)
Definition cyclic (root : nat) (name : string) : Prop :=
  forall fuel, resolveInRoot false fuel root name = None.
End Resolve.

(** A tree with a link to itself and a pair of links to each other:
    [loop -> loop], [a -> b], [b -> a], next to a directory [d] (handle 1)
    holding the file [f]. *)
Definition loopTree (h : nat) (c : string) : option node :=
  match h with
  | 0 =>
      if String.eqb c "loop" then Some (NSymlink "loop")
      else if String.eqb c "a" then Some (NSymlink "b")
      else if String.eqb c "b" then Some (NSymlink "a")
      else if String.eqb c "d" then Some (NDir 1)
      else None
  | 1 => if String.eqb c "f" then Some NFile else None
  | _ => None
  end.

(** ** Paths by their components *)

(** The splitter is compared with a description of a relative path by its
    parts: a first component, then separator runs each followed by a
    component, then the trailing separators. *)
Fixpoint noSep (c : string) : bool :=
  match c with
  | EmptyString => true
  | String x c' => negb (Ascii.eqb x "/"%char) && noSep c'
  end.

Fixpoint allSep (t : string) : bool :=
  match t with
  | EmptyString => true
  | String x t' => Ascii.eqb x "/"%char && allSep t'
  end.

Definition isComponent (c : string) : bool := negb (String.eqb c EmptyString) && noSep c.

Definition isSepRun (t : string) : bool := negb (String.eqb t EmptyString) && allSep t.

Fixpoint joinMore (more : list (string * string)) : string :=
  match more with
  | [] => EmptyString
  | (sp, c) :: more' => (sp ++ c ++ joinMore more')%string
  end.

Definition buildPath (first : string) (more : list (string * string)) (t : string) : string :=
  (first ++ joinMore more ++ t)%string.

Definition wellFormedMore (more : list (string * string)) : bool :=
  forallb (fun sc => isSepRun (fst sc) && isComponent (snd sc)) more.

Definition notDot (c : string) : bool := negb (String.eqb c ".").

(** What the specification asks of the components of the path itself:
    every "." goes, but a final one stays unless a suffix follows. *)
Definition cleanComponents (comps suffix : list string) : list string :=
  filter notDot (removelast comps)
  ++ (if String.eqb (lastPart comps) "." && negb (isNil suffix)
      then [] else [lastPart comps]).

(** * Properties *)

(** ** Byte strings *)

Lemma len_append (a b : string) :
  String.length (a ++ b) = String.length a + String.length b.
Proof. induction a as [|x a IH]; simpl; [reflexivity | now rewrite IH]. Qed.

Lemma string_app_assoc (a b c : string) : ((a ++ b) ++ c = a ++ b ++ c)%string.
Proof. induction a as [|x a IH]; simpl; [reflexivity | now rewrite IH]. Qed.

Lemma string_app_nil_r (a : string) : (a ++ EmptyString)%string = a.
Proof. induction a as [|x a IH]; simpl; [reflexivity | now rewrite IH]. Qed.

Lemma byteAt_app (a : string) (x : ascii) (r : string) :
  byteAt (a ++ String x r) (String.length a) = x.
Proof. unfold byteAt. induction a as [|y a IH]; simpl; [reflexivity | exact IH]. Qed.

Lemma substring_0_app (c r : string) :
  substring 0 (String.length c) (c ++ r) = c.
Proof.
  induction c as [|x c IH]; simpl.
  - destruct r; reflexivity.
  - now rewrite IH.
Qed.

Lemma substring_app (a c r : string) :
  substring (String.length a) (String.length c) (a ++ c ++ r) = c.
Proof.
  induction a as [|y a IH]; simpl; [apply substring_0_app | exact IH].
Qed.

Lemma slice_app (a c r : string) :
  slice (a ++ c ++ r) (String.length a) (String.length a + String.length c) = c.
Proof.
  unfold slice.
  replace (String.length a + String.length c - String.length a)
    with (String.length c) by lia.
  apply substring_app.
Qed.

Lemma sliceFrom_app (a t : string) :
  sliceFrom (a ++ t) (String.length a) = t.
Proof.
  unfold sliceFrom, len. rewrite len_append.
  replace (String.length a + String.length t - String.length a)
    with (String.length t) by lia.
  rewrite <- (string_app_nil_r t) at 2.
  rewrite substring_app. reflexivity.
Qed.

Lemma lastPart_snoc (l : list string) (x : string) : lastPart (l ++ [x]) = x.
Proof. unfold lastPart. apply last_last. Qed.

(** ** The splitter on a path given by its components *)

Section SplitProofs.
Variable pf : Platform.
Hypothesis pf_unix : unixlike pf.

Let sep_slash : forall c, IsPathSeparator pf c = Ascii.eqb c "/"%char :=
  proj2 pf_unix.

(** The inner loop walks over a run of separators and stops at its end. *)
Lemma skipSeparators_run (sp a r : string) (fuel : nat) :
  allSep sp = true ->
  noSep (substring 0 1 r) = true ->
  String.length sp <= fuel ->
  skipSeparators pf fuel (a ++ sp ++ r) (String.length a)
  = String.length a + String.length sp.
Proof.
  revert a fuel.
  induction sp as [|x sp IH]; intros a fuel Hsp Hr Hfuel; simpl in *.
  - rewrite Nat.add_0_r.
    destruct fuel as [|fuel]; simpl; [reflexivity|].
    destruct r as [|y r].
    + rewrite string_app_nil_r. unfold len. rewrite Nat.ltb_irrefl. reflexivity.
    + rewrite byteAt_app, sep_slash.
      simpl in Hr. destruct r; simpl in Hr;
        apply andb_true_iff in Hr; destruct Hr as [Hy _];
        apply negb_true_iff in Hy; rewrite Hy, andb_false_r; reflexivity.
  - apply andb_true_iff in Hsp. destruct Hsp as [Hx Hsp].
    destruct fuel as [|fuel]; [lia|]. simpl.
    rewrite byteAt_app, sep_slash, Hx.
    unfold len. rewrite len_append. simpl.
    replace (Nat.ltb (String.length a) (String.length a + S (String.length (sp ++ r))))
      with true by (symmetry; apply Nat.ltb_lt; lia).
    simpl.
    specialize (IH (a ++ String x EmptyString)%string fuel Hsp Hr ltac:(lia)).
    rewrite string_app_assoc in IH. simpl in IH.
    rewrite len_append in IH. simpl in IH.
    replace (S (String.length a)) with (String.length a + 1) by lia.
    rewrite IH. lia.
Qed.

Lemma byteAt_at (s b : string) (x : ascii) (r : string) (j : nat) :
  s = (b ++ String x r)%string -> j = String.length b -> byteAt s j = x.
Proof. intros -> ->. apply byteAt_app. Qed.

Lemma slice_at (s a c r : string) (i j : nat) :
  s = (a ++ c ++ r)%string -> i = String.length a ->
  j = String.length a + String.length c -> slice s i j = c.
Proof. intros -> -> ->. apply slice_app. Qed.

Lemma sliceFrom_at (s b t : string) (j : nat) :
  s = (b ++ t)%string -> j = String.length b -> sliceFrom s j = t.
Proof. intros -> ->. apply sliceFrom_app. Qed.

Lemma skipSeparators_at (s b sp r : string) (j fuel : nat) :
  s = (b ++ sp ++ r)%string -> j = String.length b ->
  allSep sp = true -> noSep (substring 0 1 r) = true ->
  String.length sp <= fuel ->
  skipSeparators pf fuel s j = j + String.length sp.
Proof. intros -> ->. apply skipSeparators_run. Qed.

(** The outer loop moves [j] to the end of the component it is in. *)
Lemma splitLoop_scan (c b r : string) (parts : list string) (i F : nat) :
  noSep c = true ->
  splitLoop pf (String.length c + F) (b ++ c ++ r) parts i (String.length b)
  = splitLoop pf F (b ++ c ++ r) parts i (String.length b + String.length c).
Proof.
  revert b.
  induction c as [|x c IH]; intros b Hc; simpl in *.
  - now rewrite Nat.add_0_r.
  - apply andb_true_iff in Hc. destruct Hc as [Hx Hc].
    rewrite byteAt_app, sep_slash, Hx.
    unfold len. rewrite len_append. simpl.
    replace (Nat.ltb (String.length b) (String.length b + S (String.length (c ++ r))))
      with true by (symmetry; apply Nat.ltb_lt; lia).
    simpl.
    specialize (IH (b ++ String x EmptyString)%string Hc).
    rewrite string_app_assoc in IH. simpl in IH.
    rewrite len_append in IH. simpl in IH.
    replace (S (String.length b)) with (String.length b + 1) by lia.
    rewrite IH. f_equal. lia.
Qed.

Lemma noSep_head (c r : string) :
  isComponent c = true -> noSep (substring 0 1 (c ++ r)) = true.
Proof.
  unfold isComponent. destruct c as [|x c]; simpl; [discriminate|].
  intros H. apply andb_true_iff in H. destruct H as [Hx _].
  destruct (c ++ r)%string; simpl; now rewrite Hx.
Qed.

Lemma noSep_head_allSep (t : string) :
  allSep t = true -> t = EmptyString \/ exists t', t = String "/"%char t'.
Proof.
  destruct t as [|x t]; simpl; [now left|].
  intros H. apply andb_true_iff in H. destruct H as [Hx _].
  apply Ascii.eqb_eq in Hx. subst. right. now exists t.
Qed.

(** From inside a component to the end of the path: the loop appends the
    components it meets, dropping each "." that is not the last one, and
    returns the separators after the last one. *)
Lemma splitLoop_components (more : list (string * string)) :
  forall (a done c t : string) (parts : list string) (fuel : nat),
    noSep c = true ->
    String.eqb (done ++ c) EmptyString = false ->
    wellFormedMore more = true ->
    allSep t = true ->
    String.length (a ++ (done ++ c) ++ joinMore more ++ t)
      - (String.length a + String.length done) < fuel ->
    splitLoop pf fuel (a ++ (done ++ c) ++ joinMore more ++ t) parts
      (String.length a) (String.length a + String.length done)
    = Some (parts
            ++ filter notDot (removelast ((done ++ c)%string :: map snd more))
            ++ [lastPart ((done ++ c)%string :: map snd more)], t).
Proof.
  induction more as [|[sp c2] more IH];
    intros a done c t parts fuel Hc Hne Hmore Ht Hfuel.
  - simpl joinMore in *. simpl map. simpl removelast. simpl filter.
    remember (a ++ (done ++ c) ++ EmptyString ++ t)%string as s eqn:Es0.
    assert (Es : s = ((a ++ done) ++ c ++ t)%string)
      by (rewrite Es0; simpl; now rewrite !string_app_assoc).
    assert (Ls : String.length s
                 = String.length a + String.length done + String.length c
                   + String.length t)
      by (rewrite Es, !len_append; lia).
    destruct (Nat.le_exists_sub (S (String.length c)) fuel ltac:(lia)) as [F [-> _]].
    replace (F + S (String.length c)) with (String.length c + S F) by lia.
    rewrite <- (len_append a done).
    rewrite Es at 1. rewrite splitLoop_scan by assumption. rewrite <- Es.
    cbn [splitLoop].
    assert (Hcond : Nat.ltb (String.length (a ++ done) + String.length c) (len s)
                    && negb (IsPathSeparator pf
                               (byteAt s (String.length (a ++ done) + String.length c)))
                    = false).
    { destruct (noSep_head_allSep t Ht) as [-> | [t' ->]].
      - replace (Nat.ltb _ _) with false; [reflexivity|].
        symmetry. apply Nat.ltb_ge. unfold len. rewrite Ls, len_append. simpl. lia.
      - rewrite (byteAt_at s ((a ++ done) ++ c) "/"%char t').
        + rewrite sep_slash. simpl. apply andb_false_r.
        + rewrite Es. now rewrite !string_app_assoc.
        + now rewrite !len_append. }
    rewrite Hcond.
    rewrite (skipSeparators_at s ((a ++ done) ++ c) t EmptyString);
      [ | now rewrite Es, string_app_nil_r, !string_app_assoc
        | now rewrite !len_append | exact Ht | reflexivity
        | unfold len; rewrite Ls; lia ].
    replace (Nat.eqb _ (len s)) with true
      by (symmetry; apply Nat.eqb_eq; unfold len; rewrite Ls, !len_append; lia).
    rewrite (slice_at s a (done ++ c) t);
      [ | rewrite Es0; reflexivity | reflexivity | rewrite !len_append; lia ].
    rewrite (sliceFrom_at s ((a ++ done) ++ c) t);
      [ | rewrite Es; now rewrite !string_app_assoc | now rewrite !len_append ].
    reflexivity.
  - simpl in Hmore. apply andb_true_iff in Hmore. destruct Hmore as [Hsc Hmore].
    apply andb_true_iff in Hsc. destruct Hsc as [Hsp Hc2].
    unfold isSepRun in Hsp. apply andb_true_iff in Hsp. destruct Hsp as [Hsp0 Hsp].
    assert (Hhead : exists sp', sp = String "/"%char sp').
    { destruct (noSep_head_allSep sp Hsp) as [-> | H]; [discriminate | exact H]. }
    destruct Hhead as [sp' Hhead]. clear Hsp0.
    assert (Hc2len : 1 <= String.length c2)
      by (unfold isComponent in Hc2; destruct c2; [discriminate | simpl; lia]).
    set (R := (c2 ++ joinMore more ++ t)%string).
    remember (a ++ (done ++ c) ++ joinMore ((sp, c2) :: more) ++ t)%string
      as s eqn:Es0.
    assert (Es : s = ((a ++ done) ++ c ++ sp ++ R)%string)
      by (rewrite Es0; unfold R; cbn [joinMore]; now rewrite !string_app_assoc).
    assert (Ls : String.length s
                 = String.length a + String.length done + String.length c
                   + String.length sp + String.length R)
      by (rewrite Es, !len_append; lia).
    assert (LR : String.length c2 <= String.length R)
      by (unfold R; rewrite len_append; lia).
    assert (Lsp : 1 <= String.length sp) by (rewrite Hhead; simpl; lia).
    destruct (Nat.le_exists_sub (S (String.length c)) fuel ltac:(lia)) as [F [-> _]].
    replace (F + S (String.length c)) with (String.length c + S F) by lia.
    rewrite <- (len_append a done).
    rewrite Es at 1. rewrite splitLoop_scan by assumption. rewrite <- Es.
    cbn [splitLoop].
    rewrite (byteAt_at s ((a ++ done) ++ c) "/"%char (sp' ++ R));
      [ | rewrite Es, Hhead; simpl; now rewrite !string_app_assoc
        | now rewrite !len_append ].
    rewrite sep_slash. simpl negb. rewrite andb_false_r.
    rewrite (skipSeparators_at s ((a ++ done) ++ c) sp R);
      [ | rewrite Es; now rewrite !string_app_assoc
        | now rewrite !len_append | exact Hsp | now apply noSep_head
        | unfold len; rewrite Ls; lia ].
    replace (Nat.eqb _ (len s)) with false
      by (symmetry; apply Nat.eqb_neq; unfold len; rewrite Ls, !len_append; lia).
    rewrite (slice_at s a (done ++ c) (sp ++ R));
      [ | rewrite Es; now rewrite !string_app_assoc | reflexivity
        | rewrite !len_append; lia ].
    rewrite lastPart_snoc, removelast_last.
    specialize (IH (a ++ (done ++ c) ++ sp)%string EmptyString c2 t
                   (if String.eqb (done ++ c) "." then parts
                    else parts ++ [(done ++ c)%string]) F).
    simpl String.append in IH. simpl String.length in IH.
    rewrite Nat.add_0_r in IH.
    assert (Es' : s = ((a ++ (done ++ c) ++ sp) ++ c2 ++ joinMore more ++ t)%string)
      by (rewrite Es; unfold R; now rewrite !string_app_assoc).
    rewrite <- Es' in IH.
    replace (String.length (a ++ done) + String.length c + String.length sp)
      with (String.length (a ++ (done ++ c) ++ sp)) by (rewrite !len_append; lia).
    rewrite IH.
    + simpl map. cbn [removelast filter]. unfold notDot at 2.
      replace (lastPart ((done ++ c)%string :: c2 :: map snd more))
        with (lastPart (c2 :: map snd more)) by reflexivity.
      destruct (String.eqb (done ++ c) "."); simpl negb; cbn iota.
      * reflexivity.
      * rewrite <- app_assoc. reflexivity.
    + unfold isComponent in Hc2. apply andb_true_iff in Hc2. tauto.
    + unfold isComponent in Hc2. apply andb_true_iff in Hc2.
      destruct Hc2 as [H0 _]. now apply negb_true_iff in H0.
    + exact Hmore.
    + exact Ht.
    + rewrite Ls, !len_append. rewrite Ls in Hfuel. lia.
Qed.

Lemma removelast_snoc3 (p q : list string) (x : string) :
  removelast (p ++ q ++ [x]) = p ++ q.
Proof. rewrite app_assoc. rewrite removelast_last. reflexivity. Qed.

(** The splitter on a path given by its components: the prefix, the
    cleaned components, the suffix, and the trailing separators as they
    stand. *)
Lemma splitPathInRoot_on_components
    (first : string) (more : list (string * string)) (t : string)
    (prefix suffix : list string) :
  isComponent first = true ->
  wellFormedMore more = true ->
  allSep t = true ->
  splitPathInRoot pf (buildPath first more t) prefix suffix
  = Some (prefix ++ cleanComponents (first :: map snd more) suffix ++ suffix,
          t, None).
Proof.
  intros Hfirst Hmore Ht.
  unfold isComponent in Hfirst. apply andb_true_iff in Hfirst.
  destruct Hfirst as [Hne Hns].
  destruct first as [|x first']; [discriminate|].
  simpl in Hns. apply andb_true_iff in Hns. destruct Hns as [Hx Hns].
  unfold splitPathInRoot, buildPath.
  cbn [String.append len String.length Nat.eqb].
  unfold byteAt. cbn [String.get]. rewrite sep_slash.
  apply negb_true_iff in Hx. rewrite Hx.
  rewrite (proj1 pf_unix).
  pose proof (splitLoop_components more EmptyString (String x EmptyString) first' t
                prefix (S (String.length (String x (first' ++ joinMore more ++ t))))
                Hns eq_refl Hmore Ht) as H.
  cbn [String.append String.length Nat.add] in H.
  unfold len. cbn [String.length]. rewrite H by lia. clear H.
  unfold cleanComponents.
  set (comps := String x first' :: map snd more).
  assert (Hlast : lastPart (prefix ++ filter notDot (removelast comps) ++ [lastPart comps])
                  = lastPart comps)
    by (rewrite app_assoc; apply lastPart_snoc).
  rewrite Hlast.
  assert (Hlen : Nat.ltb 0 (List.length
                   (prefix ++ filter notDot (removelast comps) ++ [lastPart comps]))
                 = true)
    by (apply Nat.ltb_lt; rewrite !List.length_app; simpl; lia).
  rewrite Hlen, andb_true_r.
  destruct suffix as [|s0 suffix].
  - change (Nat.ltb 0 (List.length (@nil string))) with false.
    cbn [andb isNil negb]. rewrite andb_false_r.
    rewrite !app_nil_r. reflexivity.
  - change (Nat.ltb 0 (List.length (s0 :: suffix))) with true.
    cbn [andb isNil negb]. rewrite andb_true_r.
    destruct (String.eqb (lastPart comps) ".").
    + rewrite removelast_snoc3. rewrite app_nil_r, <- app_assoc. reflexivity.
    + rewrite <- !app_assoc. reflexivity.
Qed.
End SplitProofs.

(** ** Every relative path is given by components *)

Lemma span_noSep (s : string) :
  exists c r, s = (c ++ r)%string /\ noSep c = true
              /\ (r = EmptyString \/ exists r', r = String "/"%char r').
Proof.
  induction s as [|x s IH].
  - exists EmptyString, EmptyString. repeat split. now left.
  - destruct (Ascii.eqb x "/"%char) eqn:Hx.
    + apply Ascii.eqb_eq in Hx. subst x.
      exists EmptyString, (String "/"%char s). repeat split. right. now exists s.
    + destruct IH as (c & r & -> & Hc & Hr).
      exists (String x c), r. repeat split; [simpl; now rewrite Hx | exact Hr].
Qed.

Lemma span_allSep (s : string) :
  exists sp r, s = (sp ++ r)%string /\ allSep sp = true
               /\ noSep (substring 0 1 r) = true.
Proof.
  induction s as [|x s IH].
  - exists EmptyString, EmptyString. repeat split.
  - destruct (Ascii.eqb x "/"%char) eqn:Hx.
    + destruct IH as (sp & r & -> & Hsp & Hr).
      exists (String x sp), r. repeat split; [simpl; now rewrite Hx | exact Hr].
    + exists EmptyString, (String x s). repeat split.
      simpl. destruct s; simpl; now rewrite Hx.
Qed.

Lemma relative_path_components_aux (n : nat) :
  forall s, String.length s <= n ->
    s <> EmptyString -> noSep (substring 0 1 s) = true ->
    exists first more t,
      isComponent first = true /\ wellFormedMore more = true /\ allSep t = true
      /\ s = buildPath first more t.
Proof.
  induction n as [|n IH]; intros s Hlen Hne Hhead.
  - destruct s; [congruence | simpl in Hlen; lia].
  - destruct (span_noSep s) as (c & r & Es & Hc & Hr).
    assert (Hcne : String.eqb c EmptyString = false).
    { destruct c; [|reflexivity]. simpl in Es. subst r.
      destruct Hr as [-> | [r' ->]]; [congruence|].
      simpl in Hhead. destruct r'; discriminate. }
    assert (Hcomp : isComponent c = true)
      by (unfold isComponent; now rewrite Hcne, Hc).
    destruct Hr as [-> | [r' Er]].
    + exists c, [], EmptyString. repeat split; try assumption.
    + destruct (span_allSep r) as (sp & r2 & Er2 & Hsp & Hr2).
      assert (Hspne : String.eqb sp EmptyString = false).
      { destruct sp; [|reflexivity]. simpl in Er2. subst r2. subst r.
        simpl in Hr2. destruct r'; discriminate. }
      destruct r2 as [|y r2].
      * exists c, [], sp. repeat split; try assumption.
        unfold buildPath. simpl. rewrite Es, Er2. now rewrite string_app_nil_r.
      * destruct (IH (String y r2)) as (f2 & more2 & t & Hf2 & Hm2 & Ht & E2).
        -- assert (L : String.length s
                       = String.length c + String.length sp + String.length (String y r2))
             by (rewrite Es, Er2, !len_append; lia).
           assert (1 <= String.length c) by (destruct c; [discriminate | simpl; lia]).
           lia.
        -- discriminate.
        -- exact Hr2.
        -- exists c, ((sp, f2) :: more2), t. repeat split; try assumption.
           ++ simpl. unfold isSepRun. now rewrite Hspne, Hsp, Hf2, Hm2.
           ++ unfold buildPath in *. simpl joinMore.
              rewrite Es, Er2, E2. now rewrite !string_app_assoc.
Qed.

(** Every non-empty path that does not start with a separator consists of
    a first component, separator runs each followed by a component, and
    trailing separators. *)
Lemma relative_path_components (s : string) :
  s <> EmptyString -> noSep (substring 0 1 s) = true ->
  exists first more t,
    isComponent first = true /\ wellFormedMore more = true /\ allSep t = true
    /\ s = buildPath first more t.
Proof. apply (relative_path_components_aux (String.length s)). lia. Qed.

(** On a platform whose separator is the slash the splitter has a result
    for every path: the fuel of its loop never runs out. *)
Lemma splitPathInRoot_total (pf : Platform) (s : string) (prefix suffix : list string) :
  unixlike pf ->
  exists parts suffixSep err,
    splitPathInRoot pf s prefix suffix = Some (parts, suffixSep, err).
Proof.
  intros Hpf.
  destruct s as [|x s].
  - now exists [], EmptyString, (Some (errorString "empty path")).
  - destruct (Ascii.eqb x "/"%char) eqn:Hx.
    + exists [], EmptyString, (Some errPathEscapes).
      unfold splitPathInRoot. simpl. unfold byteAt. simpl.
      rewrite (proj2 Hpf), Hx. reflexivity.
    + destruct (relative_path_components (String x s)) as (f & more & t & Hf & Hm & Ht & E).
      * discriminate.
      * simpl. destruct s; simpl; now rewrite Hx.
      * rewrite E. rewrite (splitPathInRoot_on_components pf Hpf) by assumption.
        eauto.
Qed.

(** C6.  On a platform whose separator is the slash, for every relative
    path, given by its first component, the separator runs each followed by
    a component, and its trailing separators, splitPathInRoot returns the
    prefix, then the components of the path with every "." dropped except a
    final one, which is dropped too when a non-empty suffix is appended,
    then the suffix; the separators after the last component come back
    verbatim.  At "a/./b/c" this is the sequence a, b, c of "a/b/c". *)
Theorem splitPathInRoot_drops_dot_components
    (pf : Platform) (first : string) (more : list (string * string)) (t : string)
    (prefix suffix : list string) :
  unixlike pf ->
  isComponent first = true ->
  wellFormedMore more = true ->
  allSep t = true ->
  splitPathInRoot pf (buildPath first more t) prefix suffix
  = Some (prefix ++ cleanComponents (first :: map snd more) suffix ++ suffix,
          t, None).
Proof. intros Hpf. now apply splitPathInRoot_on_components. Qed.

Lemma unix_unixlike : unixlike unix.
Proof. split; [reflexivity | intros c; reflexivity]. Qed.

Lemma splitPathInRoot_drops_dot_components_witness :
  splitPathInRoot unix "a/./b/c" ["p"] []
  = Some (["p"; "a"; "b"; "c"], EmptyString, None)
  /\ splitPathInRoot unix "a/./b/c" ["p"] [] = splitPathInRoot unix "a/b/c" ["p"] []
  /\ splitPathInRoot unix "a/.//" [] ["s"] = Some (["a"; "s"], "//", None).
Proof.
  split; [|split].
  - exact (splitPathInRoot_drops_dot_components unix "a"
             [("/", "."); ("/", "b"); ("/", "c")] EmptyString ["p"] []
             unix_unixlike eq_refl eq_refl eq_refl).
  - reflexivity.
  - exact (splitPathInRoot_drops_dot_components unix "a" [("/", ".")] "//" [] ["s"]
             unix_unixlike eq_refl eq_refl eq_refl).
Defined.

(** ** The prefixed subtree *)

Section SubFSProofs.
Context {imp : Imports}.

Lemma fullName_invalid (f : subFS) (op name : string) :
  ValidPath name = false ->
  fullName f op name = (EmptyString, Some (PathError op name ErrInvalid)).
Proof. intros H. unfold fullName. now rewrite H. Qed.

Lemma fullName_valid (f : subFS) (op name : string) :
  ValidPath name = true ->
  fullName f op name = (path_Join (dir f) name, None).
Proof. intros H. unfold fullName. now rewrite H. Qed.

(** The two-name operations of the wrapper give up before any call when
    one of the names is invalid. *)
Lemma subFS_two_names_invalid (f : subFS) (oldname newname : string) :
  ValidPath oldname = false \/ ValidPath newname = false ->
  exists bad,
    (bad = oldname \/ bad = newname) /\
    subFS_Rename f oldname newname = Ret (Some (PathError "rename" bad ErrInvalid)) /\
    subFS_Link f oldname newname = Ret (Some (PathError "link" bad ErrInvalid)) /\
    subFS_Symlink f oldname newname = Ret (Some (PathError "symlink" bad ErrInvalid)).
Proof.
  intros H. unfold subFS_Rename, subFS_Link, subFS_Symlink.
  destruct (ValidPath oldname) eqn:Ho.
  - destruct H as [H|H]; [discriminate|].
    exists newname. split; [now right|].
    rewrite !(fullName_valid f _ oldname Ho), !(fullName_invalid f _ newname H).
    repeat split.
  - exists oldname. split; [now left|].
    rewrite !(fullName_invalid f _ oldname Ho). repeat split.
Qed.

Lemma string_eqb_longer (a b : string) :
  String.length b < String.length a -> String.eqb a b = false.
Proof.
  intros H. apply String.eqb_neq. intros ->. lia.
Qed.

(** [shorten] undoes the prefixing of a non-empty name. *)
Lemma shorten_prefixed (f : subFS) (rel : string) :
  rel <> EmptyString ->
  shorten f (dir f ++ "/" ++ rel) = (rel, true).
Proof.
  intros Hne. unfold shorten.
  assert (Hlen : 1 <= String.length rel) by (destruct rel; [congruence | simpl; lia]).
  rewrite string_eqb_longer by (rewrite !len_append; simpl; lia).
  replace (Nat.leb (len (dir f) + 2) (len (dir f ++ "/" ++ rel))) with true
    by (symmetry; apply Nat.leb_le; unfold len; rewrite !len_append; simpl; lia).
  unfold len. simpl String.append at 2.
  rewrite byteAt_app. simpl Ascii.eqb.
  unfold slice. rewrite Nat.sub_0_r, substring_0_app, String.eqb_refl.
  simpl andb.
  rewrite (sliceFrom_at _ (dir f ++ "/") rel);
    [ reflexivity | now rewrite string_app_assoc | rewrite len_append; reflexivity ].
Qed.

(** A name that does not start with the directory is not shortened. *)
Lemma shorten_not_prefixed (f : subFS) (name : string) :
  String.prefix (dir f) name = false -> shorten f name = (EmptyString, false).
Proof.
  intros Hp. unfold shorten.
  destruct (String.eqb name (dir f)) eqn:He.
  - apply String.eqb_eq in He. subst name.
    assert (String.prefix (dir f) (dir f) = true).
    { apply prefix_correct. generalize (dir f). intros d.
      rewrite <- (string_app_nil_r d) at 2. apply substring_0_app. }
    congruence.
  - destruct (String.eqb (slice name 0 (len (dir f))) (dir f)) eqn:Hs.
    + apply String.eqb_eq in Hs. unfold slice in Hs. rewrite Nat.sub_0_r in Hs.
      apply prefix_correct in Hs. congruence.
    + now rewrite andb_false_r.
Qed.

Lemma shortenAll_prefixed (f : subFS) (rels : list string) :
  Forall (fun rel => rel <> EmptyString) rels ->
  shortenAll f (map (fun rel => dir f ++ "/" ++ rel)%string rels) = (rels, None).
Proof.
  induction 1 as [|rel rels Hrel _ IH]; cbn [map shortenAll]; [reflexivity|].
  rewrite shorten_prefixed by assumption. cbn [negb]. now rewrite IH.
Qed.

Lemma shortenAll_not_prefixed (f : subFS) (names : list string) :
  (exists m, In m names /\ String.prefix (dir f) m = false) ->
  shortenAll f names
  = ([], Some (errorString
                 ("invalid result from inner fsys Glob: " ++ EmptyString ++ " not in " ++ dir f)%string)).
Proof.
  intros (m & Hin & Hp).
  induction names as [|name names IH]; [destruct Hin|].
  cbn [shortenAll].
  destruct (shorten f name) as [short ok] eqn:Hs.
  destruct ok; cbn [negb].
  - destruct Hin as [-> | Hin].
    + rewrite (shorten_not_prefixed f m Hp) in Hs. discriminate.
    + rewrite (IH Hin). reflexivity.
  - assert (short = EmptyString).
    { unfold shorten in Hs.
      destruct (String.eqb name (dir f)); [discriminate|].
      destruct (_ && _ && _); [discriminate|]. congruence. }
    subst short. reflexivity.
Qed.
End SubFSProofs.

(** A malformed pattern and the pattern "." are answered without asking
    the store. *)
Lemma subFS_Glob_without_call {imp : Imports} (f : subFS) (pattern : string) :
  (forall e, path_Match_err pattern = Some e ->
             subFS_Glob f pattern = Ret ([], Some e))
  /\ (path_Match_err pattern = None -> pattern = "." ->
      subFS_Glob f pattern = Ret (["."], None)).
Proof.
  unfold subFS_Glob. split.
  - intros e ->. reflexivity.
  - intros -> ->. reflexivity.
Qed.

(** C8.  Deriving the subtree at "." creates nothing and calls nothing:
    [Sub] returns the store it was given, and the method of a wrapper
    returns the wrapper it was called on. *)
Theorem Sub_dot_is_identity
    {imp : Imports} (fsys : FS) (p : nat) (f : subFS) :
  ValidPath "." = true ->
  Sub fsys "." = Ret (Some fsys, None)
  /\ subFS_Sub p f "." = Ret (Some (PtrSubFS p f), None).
Proof.
  intros Hdot. unfold Sub, subFS_Sub. rewrite Hdot. split; reflexivity.
Qed.

Lemma Sub_dot_is_identity_witness :
  Sub (imp := spec_imports) (StoreFS 7) "." = Ret (Some (StoreFS 7), None)
  /\ subFS_Sub (imp := spec_imports) 5 xSub "." = Ret (Some (PtrSubFS 5 xSub), None).
Proof.
  exact (Sub_dot_is_identity (imp := spec_imports) (StoreFS 7) 5 xSub eq_refl).
Defined.

Lemma fixErr_keeps_failure {imp : Imports} (f : subFS) (e : error) :
  fixErr f (Some e) <> None.
Proof.
  unfold fixErr. destruct e; try discriminate.
  destruct (shorten f Path) as [short ok]. destruct ok; discriminate.
Qed.

(** C10.  Whenever [ReadLink] of the wrapper succeeds, it made exactly one
    call, the store's [ReadLink] on the prefixed name, and the target it
    returns is the string the store answered, as it stands. *)
Theorem subFS_ReadLink_target_unchanged
    {imp : Imports} (f : subFS) (name : string)
    (W : Type) (h : handler fsE W) (w w' : W)
    (target : string) (tr : list (issued fsE)) :
  run h (subFS_ReadLink f name) w = ((target, None), w', tr) ->
  h _ (Fs_ReadLink (fsys f) (path_Join (dir f) name)) w = ((target, None), w')
  /\ tr = [issue (Fs_ReadLink (fsys f) (path_Join (dir f) name)) (target, None)].
Proof.
  unfold subFS_ReadLink, fullName.
  destruct (ValidPath name); cbn [negb].
  - cbn [bind call run].
    destruct (h _ (Fs_ReadLink (fsys f) (path_Join (dir f) name)) w)
      as [[target0 err] w0].
    destruct err as [e|]; cbn [bind run].
    + intros H. inversion H as [[Ht He Hw Htr]].
      now destruct (fixErr_keeps_failure f e).
    + intros H. inversion H. subst. split; reflexivity.
  - cbn [run]. discriminate.
Qed.

Lemma subFS_ReadLink_target_unchanged_witness :
  stubStore "/etc/passwd" [] _ (Fs_ReadLink (StoreFS 0) "x/link") tt
  = (("/etc/passwd", None), tt)
  /\ [issue (Fs_ReadLink (StoreFS 0) "x/link") ("/etc/passwd", None)]
     = [issue (Fs_ReadLink (StoreFS 0) "x/link") ("/etc/passwd", None)].
Proof.
  exact (subFS_ReadLink_target_unchanged (imp := spec_imports) xSub "link"
           unit (stubStore "/etc/passwd" []) tt tt "/etc/passwd" _ eq_refl).
Defined.

(** The other wrapper methods do strip the prefix from the path of a
    failure on the prefixed name; [Open] is one of them. *)
Lemma subFS_Open_error_path (f : subFS) (name : string)
    (W : Type) (h : handler fsE W) (w w' : W) (op : string) (e : error) :
  fs_ValidPath name = true ->
  h _ (Fs_Open (fsys f) (dir f ++ "/" ++ name)) w
  = ((None, Some (PathError op (dir f ++ "/" ++ name) e)), w') ->
  fst (fst (run h (subFS_Open (imp := spec_imports) f name) w))
  = (None, Some (PathError op name e)).
Proof.
  intros Hv Hreply.
  assert (Hne : name <> EmptyString) by (intros ->; discriminate).
  unfold subFS_Open, fullName. cbn [ValidPath path_Join spec_imports].
  rewrite Hv. cbn [negb bind call run]. unfold spec_path_Join. rewrite Hreply.
  cbn [run fst fixErr]. rewrite shorten_prefixed by assumption.
  reflexivity.
Qed.

(** C2.  [Stat] of the wrapper over "x", asked for "y/z" while the store
    fails with a [PathError] on "x/y/z", returns that error with the path
    "x/y/z" still in it, where [Open] in the same situation returns the path
    "y/z" the caller gave. *)
Theorem subFS_Stat_keeps_prefixed_path :
  fst (fst (run (stubStore EmptyString []) (subFS_Stat (imp := spec_imports) xSub "y/z") tt))
  = (None, Some (PathError "stat" "x/y/z" ErrNotExist))
  /\
  fst (fst (run (stubStore EmptyString []) (subFS_Open (imp := spec_imports) xSub "y/z") tt))
  = (None, Some (PathError "open" "y/z" ErrNotExist)).
Proof. split; reflexivity. Qed.

(** ** The confined root *)

(** C5.  When [perm] has a bit outside the nine permission bits,
    [Root.OpenFile], [Root.Mkdir] and [Root.MkdirAll] return the
    "unsupported file mode" error at once: no log entry, no call below. *)
Theorem Root_rejects_mode_outside_permission_bits
    {osimp : OsImports} (r : Root) (name : string) (flag : Z) (perm : FileMode) :
  Z.land perm 511%Z <> perm ->
  Root_OpenFile r name flag perm
  = Ret (None, Some (PathError "openat" name (errorString "unsupported file mode")))
  /\ Root_Mkdir r name perm
     = Ret (Some (PathError "mkdirat" name (errorString "unsupported file mode")))
  /\ Root_MkdirAll r name perm
     = Ret (Some (PathError "mkdirat" name (errorString "unsupported file mode"))).
Proof.
  intros H. apply Z.eqb_neq in H.
  unfold Root_OpenFile, Root_Mkdir, Root_MkdirAll. rewrite H. repeat split.
Qed.

Lemma Root_rejects_mode_outside_permission_bits_witness :
  Root_OpenFile (osimp := spec_os_imports) 0 "f" O_RDONLY 512%Z
  = Ret (None, Some (PathError "openat" "f" (errorString "unsupported file mode")))
  /\ Root_Mkdir 0 "f" 512%Z
     = Ret (Some (PathError "mkdirat" "f" (errorString "unsupported file mode")))
  /\ Root_MkdirAll 0 "f" 512%Z
     = Ret (Some (PathError "mkdirat" "f" (errorString "unsupported file mode"))).
Proof.
  apply (Root_rejects_mode_outside_permission_bits (osimp := spec_os_imports)
           0 "f" O_RDONLY 512%Z).
  discriminate.
Defined.

(** The adapter's [Link] and [Symlink] give up before any call when one of
    the names is invalid. *)
Lemma rootFS_Link_Symlink_invalid
    {imp : Imports} {osimp : OsImports} (pf : Platform) (r : Root)
    (oldname newname : string) :
  isValidRootFSPath pf oldname = false \/ isValidRootFSPath pf newname = false ->
  exists bad,
    (bad = oldname \/ bad = newname) /\
    rootFS_Link pf r oldname newname = Ret (Some (PathError "link" bad ErrInvalid)) /\
    rootFS_Symlink pf r oldname newname = Ret (Some (PathError "symlink" bad ErrInvalid)).
Proof.
  intros H. unfold rootFS_Link, rootFS_Symlink.
  destruct (isValidRootFSPath pf oldname) eqn:Ho.
  - destruct H as [H|H]; [discriminate|]. rewrite H.
    exists newname. split; [now right | split; reflexivity].
  - exists oldname. split; [now left | split; reflexivity].
Qed.

(** The adapter's [Rename] goes on to [Root.Rename] as soon as one of the
    two names is valid. *)
Lemma rootFS_Rename_one_valid
    {imp : Imports} {osimp : OsImports} (pf : Platform) (r : Root)
    (oldname newname : string) :
  isValidRootFSPath pf oldname = true \/ isValidRootFSPath pf newname = true ->
  rootFS_Rename pf r oldname newname = call (rootRename r oldname newname).
Proof.
  intros H. unfold rootFS_Rename.
  replace (isValidRootFSPath pf oldname || isValidRootFSPath pf newname) with true
    by (symmetry; apply orb_true_iff; exact H).
  reflexivity.
Qed.

(** C1.  The adapter's [Rename] with the valid old name "a" and the invalid
    new name "../b" does not stop at validation: it issues the rename below
    the root and returns what that call returns. *)
Theorem rootFS_Rename_passes_invalid_newname :
  isValidRootFSPath (imp := spec_imports) (osimp := spec_os_imports) unix "../b" = false
  /\
  run (stubPlatform [])
      (rootFS_Rename (imp := spec_imports) (osimp := spec_os_imports) unix 0 "a" "../b") tt
  = (Some (LinkError "renameat" "a" "../b" errPathEscapes), tt,
     [issue (rootRename 0 "a" "../b")
            (Some (LinkError "renameat" "a" "../b" errPathEscapes))]).
Proof. split; reflexivity. Qed.

(** The specification's rule for names rejects a path whose first
    component is "..". *)
Lemma fs_ValidPath_leading_dotdot (more : list (string * string)) (t : string) :
  wellFormedMore more = true -> allSep t = true ->
  fs_ValidPath (buildPath ".." more t) = false.
Proof.
  intros Hmore Ht. unfold fs_ValidPath, buildPath.
  assert (Hrest : (joinMore more ++ t)%string = EmptyString
                  \/ exists r, (joinMore more ++ t)%string = String "/"%char r).
  { destruct more as [|[sp c] more]; simpl.
    - destruct t as [|x t]; [now left|]. right.
      simpl in Ht. apply andb_true_iff in Ht. destruct Ht as [Hx _].
      apply Ascii.eqb_eq in Hx. subst. now exists t.
    - right. simpl in Hmore. apply andb_true_iff in Hmore. destruct Hmore as [H _].
      apply andb_true_iff in H. destruct H as [H _]. unfold isSepRun in H.
      destruct sp as [|x sp]; [discriminate|].
      simpl in H. apply andb_true_iff in H. destruct H as [Hx _].
      apply Ascii.eqb_eq in Hx. subst. simpl. eauto. }
  destruct Hrest as [-> | [r ->]].
  - reflexivity.
  - cbn [String.append components Ascii.eqb Bool.eqb].
    destruct (components r); cbn; apply andb_false_r.
Qed.

(** C3, as the code has it.  For every name whose first component is "..",
    [Open] of the adapter returned by [Root.FS] fails with [ErrInvalid] at
    name validation, before any call; the splitter does not reject the
    name: it returns ".." as the first component. *)
Theorem rootFS_Open_rejects_leading_dotdot
    {osimp : OsImports} (pf : Platform) (r : Root)
    (more : list (string * string)) (t : string) :
  unixlike pf ->
  wellFormedMore more = true ->
  allSep t = true ->
  rootFS_Open (imp := spec_imports) pf r (buildPath ".." more t)
  = Ret (None, Some (PathError "open" (buildPath ".." more t) ErrInvalid))
  /\ exists parts,
       splitPathInRoot pf (buildPath ".." more t) [] [] = Some (".." :: parts, t, None).
Proof.
  intros Hpf Hmore Ht. split.
  - unfold rootFS_Open, isValidRootFSPath. cbn [ValidPath spec_imports].
    now rewrite fs_ValidPath_leading_dotdot.
  - rewrite (splitPathInRoot_on_components pf Hpf) by (assumption || reflexivity).
    unfold cleanComponents. cbn [isNil negb]. rewrite andb_false_r, app_nil_r.
    cbn [app]. destruct more as [|[sp c] more].
    + exists []. reflexivity.
    + cbn [map snd removelast filter notDot String.eqb Ascii.eqb Bool.eqb negb].
      cbn. eexists. reflexivity.
Qed.

Lemma rootFS_Open_rejects_leading_dotdot_witness :
  rootFS_Open (imp := spec_imports) (osimp := spec_os_imports) unix 0 "../escape.txt"
  = Ret (None, Some (PathError "open" "../escape.txt" ErrInvalid))
  /\ exists parts,
       splitPathInRoot unix "../escape.txt" [] [] = Some (".." :: parts, EmptyString, None).
Proof.
  exact (rootFS_Open_rejects_leading_dotdot (osimp := spec_os_imports) unix 0
           [("/", "escape.txt")] EmptyString unix_unixlike eq_refl eq_refl).
Defined.

(** C3 as stated fails at "../escape.txt": the splitter accepts the name
    and hands on ".." as a component, and [Root.Open] validates nothing: it
    goes on to the open below the root, where the failure comes from. *)
Lemma splitPathInRoot_accepts_dotdot :
  splitPathInRoot unix "../escape.txt" [] [] = Some ([".."; "escape.txt"], EmptyString, None)
  /\
  run (stubPlatform []) (Root_Open (osimp := spec_os_imports) 0 "../escape.txt") tt
  = ((None, Some (PathError "openat" "../escape.txt" errPathEscapes)), tt,
     [issue testlog_Logger false;
      issue (rootOpenFileNolog 0 "../escape.txt" O_RDONLY 0%Z)
            (None, Some (PathError "openat" "../escape.txt" errPathEscapes))]).
Proof. split; reflexivity. Qed.

(** ** Sorting a directory listing *)

Section SortProofs.
Variable A : Type.
Variable cmp : A -> A -> Z.
Hypothesis cmp_total : forall x y, (0 < cmp x y)%Z -> (cmp y x <= 0)%Z.
Hypothesis cmp_trans :
  forall x y z, (cmp x y <= 0)%Z -> (cmp y z <= 0)%Z -> (cmp x z <= 0)%Z.

Let le (x y : A) : Prop := (cmp x y <= 0)%Z.

Lemma sortInsert_perm (x : A) (l : list A) : Permutation (x :: l) (sortInsert cmp x l).
Proof.
  induction l as [|y l IH]; simpl; [reflexivity|].
  destruct (Z.leb (cmp x y) 0); [reflexivity|].
  rewrite perm_swap. now apply perm_skip.
Qed.

Lemma SortFunc_perm (l : list A) : Permutation l (SortFunc l cmp).
Proof.
  induction l as [|x l IH]; simpl; [reflexivity|].
  rewrite <- sortInsert_perm. now apply perm_skip.
Qed.

Lemma sortInsert_sorted (x : A) (l : list A) :
  StronglySorted le l -> StronglySorted le (sortInsert cmp x l).
Proof.
  induction 1 as [|y l Hs IH Hall]; simpl.
  - repeat constructor.
  - destruct (Z.leb_spec (cmp x y) 0) as [Hxy | Hxy].
    + constructor; [now constructor|].
      constructor; [exact Hxy|].
      apply Forall_forall. intros z Hz.
      rewrite Forall_forall in Hall. apply (cmp_trans x y z Hxy). now apply Hall.
    + constructor; [exact IH|].
      apply (Permutation_Forall (sortInsert_perm x l)).
      constructor; [now apply cmp_total | exact Hall].
Qed.

Lemma SortFunc_sorted (l : list A) : StronglySorted le (SortFunc l cmp).
Proof.
  induction l as [|x l IH]; simpl; [constructor | now apply sortInsert_sorted].
Qed.
End SortProofs.

Lemma Ascii_compare_nat (x y : ascii) :
  Ascii.compare x y = Nat.compare (nat_of_ascii x) (nat_of_ascii y).
Proof. unfold Ascii.compare, nat_of_ascii. now rewrite N2Nat.inj_compare. Qed.

(** The modelled [CompareString] is the lexicographic comparison of the
    library, bytes compared as numbers. *)
Lemma CompareString_compare (a b : string) :
  CompareString a b
  = match String.compare a b with Lt => (-1)%Z | Eq => 0%Z | Gt => 1%Z end.
Proof.
  revert b. induction a as [|x a IH]; intros [|y b]; simpl; try reflexivity.
  rewrite Ascii_compare_nat.
  destruct (Nat.compare_spec (nat_of_ascii x) (nat_of_ascii y)) as [E | L | G].
  - rewrite E, Nat.ltb_irrefl. apply IH.
  - apply Nat.ltb_lt in L. now rewrite L.
  - assert (Nat.ltb (nat_of_ascii x) (nat_of_ascii y) = false) as -> by (apply Nat.ltb_ge; lia).
    apply Nat.ltb_lt in G. now rewrite G.
Qed.

Lemma CompareString_leb (a b : string) :
  (CompareString a b <= 0)%Z <-> String.leb a b = true.
Proof.
  rewrite CompareString_compare. unfold String.leb.
  destruct (String.compare a b); split; intros; (lia || reflexivity || discriminate).
Qed.

Lemma CompareString_total (a b : string) :
  (0 < CompareString a b)%Z -> (CompareString b a <= 0)%Z.
Proof.
  rewrite !CompareString_compare, (String.compare_antisym b a).
  destruct (String.compare a b); simpl; lia.
Qed.

Lemma CompareString_trans (a b c : string) :
  (CompareString a b <= 0)%Z -> (CompareString b c <= 0)%Z -> (CompareString a c <= 0)%Z.
Proof.
  revert b c. induction a as [|x a IH]; intros [|y b] [|z c]; simpl; try lia.
  destruct (Nat.ltb_spec (nat_of_ascii x) (nat_of_ascii y));
    destruct (Nat.ltb_spec (nat_of_ascii y) (nat_of_ascii x));
    destruct (Nat.ltb_spec (nat_of_ascii y) (nat_of_ascii z));
    destruct (Nat.ltb_spec (nat_of_ascii z) (nat_of_ascii y));
    destruct (Nat.ltb_spec (nat_of_ascii x) (nat_of_ascii z));
    destruct (Nat.ltb_spec (nat_of_ascii z) (nat_of_ascii x));
    try lia.
  apply IH.
Qed.

Lemma SortFunc_by_name_sorted (raw : list DirEntry) :
  StronglySorted nameLe (SortFunc raw (fun a b => CompareString (Name a) (Name b))).
Proof.
  eapply StronglySorted_ind
    with (P := fun l => StronglySorted nameLe l)
         (R := fun a b => (CompareString (Name a) (Name b) <= 0)%Z).
  - constructor.
  - intros a l _ IH Hall. constructor; [exact IH|].
    eapply Forall_impl; [|exact Hall].
    intros b Hb. now apply CompareString_leb.
  - apply (SortFunc_sorted DirEntry (fun a b => CompareString (Name a) (Name b))).
    + intros x y. apply CompareString_total.
    + intros x y z. apply CompareString_trans.
Qed.

(** ** Resolution stops *)

Section ResolveProofs.
Variable pf : Platform.
Variable lookup : nat -> string -> option node.
Variable followFinal : bool.
Hypothesis pf_unix : unixlike pf.

Abbreviation step := (resolveStep pf lookup followFinal).
Abbreviation loop := (resolveLoop pf lookup followFinal).

Lemma resolveStep_total (bounded : bool) (st : resolution) :
  exists x, step bounded st = Some x.
Proof.
  unfold resolveStep.
  destruct (queue st) as [|c rest]; [eauto|].
  destruct (String.eqb c ".."); [eauto|].
  destruct (String.eqb c "."); [destruct (isNil rest); eauto|].
  destruct (lookup (current st) c) as [[h | | target]|]; [| | |eauto].
  - destruct (isNil rest); eauto.
  - destruct (isNil rest && negb (mustDir st)); eauto.
  - destruct (isNil rest && negb followFinal && negb (mustDir st)); [eauto|].
    destruct (bounded && Nat.ltb rootMaxSymlinks (S (symlinks st))); [eauto|].
    destruct (splitPathInRoot_total pf target [] rest pf_unix)
      as (parts & suffixSep & err & ->).
    destruct err; eauto.
Qed.

(** A step that goes on either shortens the queue or counts one more
    symlink, and the checked counter never passes the maximum. *)
Lemma resolveStep_progress (st st' : resolution) :
  step true st = Some (inl st') ->
  (symlinks st' = symlinks st /\ List.length (queue st') < List.length (queue st))
  \/ (symlinks st' = S (symlinks st) /\ symlinks st' <= rootMaxSymlinks).
Proof.
  unfold resolveStep.
  destruct (queue st) as [|c rest]; [discriminate|].
  destruct (String.eqb c ".."); [discriminate|].
  destruct (String.eqb c ".").
  { destruct (isNil rest); [discriminate|].
    intros H. inversion H. subst st'. simpl. left. split; lia. }
  destruct (lookup (current st) c) as [[h | | target]|]; [| | |discriminate].
  - destruct (isNil rest); [discriminate|].
    intros H. inversion H. subst st'. simpl. left. split; lia.
  - destruct (isNil rest && negb (mustDir st)); discriminate.
  - destruct (isNil rest && negb followFinal && negb (mustDir st)); [discriminate|].
    cbn [andb].
    destruct (Nat.ltb_spec rootMaxSymlinks (S (symlinks st))) as [Hgt | Hle];
      [discriminate|].
    destruct (splitPathInRoot pf target [] rest) as [[[parts suffixSep] [e|]]|];
      try discriminate.
    intros H. inversion H. subst st'. simpl. right. split; [reflexivity | exact Hle].
Qed.

Lemma resolveLoop_terminates_aux (k : nat) :
  forall m st,
    symlinks st <= rootMaxSymlinks ->
    S rootMaxSymlinks - symlinks st <= k ->
    List.length (queue st) <= m ->
    exists fuel r n, loop true fuel st = Some (r, n) /\ n <= rootMaxSymlinks.
Proof.
  induction k as [|k IHk]; intros m st Hs Hk Hm; [lia|].
  revert st Hs Hk Hm.
  induction m as [|m IHm]; intros st Hs Hk Hm.
  - destruct (resolveStep_total true st) as [[st' | r] Hstep].
    + destruct (resolveStep_progress st st' Hstep) as [[_ Hq] | [Hn Hle]]; [lia|].
      destruct (IHk (List.length (queue st')) st' Hle ltac:(lia) (le_n _))
        as (fuel & r & n & Hrun & Hn').
      exists (S fuel), r, n. simpl. now rewrite Hstep.
    + exists 1, r, (symlinks st). simpl. now rewrite Hstep.
  - destruct (resolveStep_total true st) as [[st' | r] Hstep].
    + destruct (resolveStep_progress st st' Hstep) as [[He Hq] | [Hn Hle]].
      * destruct (IHm st' ltac:(lia) ltac:(lia) ltac:(lia))
          as (fuel & r & n & Hrun & Hn').
        exists (S fuel), r, n. simpl. now rewrite Hstep.
      * destruct (IHk (List.length (queue st')) st' Hle ltac:(lia) (le_n _))
          as (fuel & r & n & Hrun & Hn').
        exists (S fuel), r, n. simpl. now rewrite Hstep.
    + exists 1, r, (symlinks st). simpl. now rewrite Hstep.
Qed.

(** The checked walk ends from every state whose counter is within the
    maximum, with at most that many symlinks followed. *)
Lemma resolveLoop_terminates (st : resolution) :
  symlinks st <= rootMaxSymlinks ->
  exists fuel r n, loop true fuel st = Some (r, n) /\ n <= rootMaxSymlinks.
Proof.
  intros Hs.
  apply (resolveLoop_terminates_aux (S rootMaxSymlinks) (List.length (queue st)) st);
    [exact Hs | lia | lia].
Qed.

Lemma resolveLoop_more_fuel (bounded : bool) (fuel : nat) :
  forall st x fuel',
    loop bounded fuel st = Some x -> fuel <= fuel' -> loop bounded fuel' st = Some x.
Proof.
  induction fuel as [|fuel IH]; intros st x fuel' Hrun Hle; [discriminate|].
  destruct fuel' as [|fuel']; [lia|].
  simpl in *.
  destruct (step bounded st) as [[st' | r]|]; try discriminate.
  - apply (IH st' x fuel' Hrun). lia.
  - exact Hrun.
Qed.

(** Checking the counter changes a step only by the failure it adds. *)
Lemma resolveStep_unchecked (st : resolution) (x : resolution + resolved) :
  step true st = Some x -> x <> inr (Failed ELOOP) -> step false st = Some x.
Proof.
  unfold resolveStep.
  destruct (queue st) as [|c rest]; [auto|].
  destruct (String.eqb c ".."); [auto|].
  destruct (String.eqb c "."); [auto|].
  destruct (lookup (current st) c) as [[h | | target]|]; auto.
  destruct (isNil rest && negb followFinal && negb (mustDir st)); [auto|].
  cbn [andb].
  destruct (Nat.ltb rootMaxSymlinks (S (symlinks st))); [|auto].
  intros H Hx. inversion H. subst x. congruence.
Qed.

Lemma resolveLoop_unchecked (fuel : nat) :
  forall st r n,
    loop true fuel st = Some (r, n) -> r <> Failed ELOOP ->
    loop false fuel st = Some (r, n).
Proof.
  induction fuel as [|fuel IH]; intros st r n Hrun Hr; [discriminate|].
  simpl in *.
  destruct (step true st) as [[st' | r0]|] eqn:Hstep; try discriminate.
  - rewrite (resolveStep_unchecked st (inl st') Hstep) by discriminate.
    now apply IH.
  - inversion Hrun. subst r0 n.
    rewrite (resolveStep_unchecked st (inr r) Hstep) by congruence.
    reflexivity.
Qed.

(** Resolution of a name that runs into a cyclic link ends, with the
    failure [ELOOP], after at most [rootMaxSymlinks] symlinks. *)
Lemma resolveInRoot_cyclic (root : nat) (name : string) :
  cyclic pf lookup followFinal root name ->
  exists fuel n,
    n <= rootMaxSymlinks /\
    forall fuel', fuel <= fuel' ->
      resolveInRoot pf lookup followFinal true fuel' root name
      = Some (Failed ELOOP, n).
Proof.
  unfold cyclic, resolveInRoot. intros Hcyc.
  destruct (splitPathInRoot pf name [] []) as [[[parts suffixSep] [e|]]|] eqn:Hsplit.
  - specialize (Hcyc 0). discriminate.
  - set (st0 := {| current := root; queue := parts; symlinks := 0;
                   mustDir := negb (String.eqb suffixSep EmptyString) |}) in *.
    destruct (resolveLoop_terminates st0 (Nat.le_0_l _)) as (fuel & r & n & Hrun & Hn).
    assert (Hr : r = Failed ELOOP).
    { destruct r as [nd | e].
      - apply resolveLoop_unchecked in Hrun; [|discriminate].
        rewrite (Hcyc fuel) in Hrun. discriminate.
      - destruct e; try (apply resolveLoop_unchecked in Hrun; [|discriminate];
                         rewrite (Hcyc fuel) in Hrun; discriminate).
        reflexivity. }
    subst r. exists fuel, n. split; [exact Hn|].
    intros fuel' Hle. now apply (resolveLoop_more_fuel true fuel).
  - destruct (splitPathInRoot_total pf name [] [] pf_unix) as (p & s & e & H).
    congruence.
Qed.
End ResolveProofs.

(** C4.  On the resolution engine as the specification describes it: when
    a name runs into a cyclic symbolic link, that is, when following links
    without a bound would never end, the bounded resolution ends, for all
    fuel from some point on, with the failure [ELOOP] and with at most
    [rootMaxSymlinks] = 8 symlinks followed. *)
Theorem cyclic_symlink_fails_with_ELOOP
    (pf : Platform) (lookup : nat -> string -> option node) (followFinal : bool)
    (root : nat) (name : string) :
  unixlike pf ->
  cyclic pf lookup followFinal root name ->
  exists fuel n,
    n <= 8 /\
    forall fuel', fuel <= fuel' ->
      resolveInRoot pf lookup followFinal true fuel' root name = Some (Failed ELOOP, n).
Proof. intros Hpf. now apply resolveInRoot_cyclic. Qed.

Lemma loopTree_loop_cyclic : cyclic unix loopTree true 0 "loop".
Proof.
  intros fuel. unfold resolveInRoot.
  change (splitPathInRoot unix "loop" [] []) with (Some (["loop"], EmptyString, @None error)).
  cbn iota beta.
  generalize (negb (String.eqb EmptyString EmptyString)) as md. generalize 0 at 2 as n.
  induction fuel as [|fuel IH]; intros n md; [reflexivity|].
  cbn [resolveLoop].
  change (resolveStep unix loopTree true false
            {| current := 0; queue := ["loop"]; symlinks := n; mustDir := md |})
    with (Some (@inl resolution resolved
                  {| current := 0; queue := ["loop"]; symlinks := S n;
                     mustDir := false |})).
  apply IH.
Qed.

Lemma cyclic_symlink_fails_with_ELOOP_witness :
  exists fuel n,
    n <= 8 /\
    forall fuel', fuel <= fuel' ->
      resolveInRoot unix loopTree true true fuel' 0 "loop" = Some (Failed ELOOP, n).
Proof.
  exact (cyclic_symlink_fails_with_ELOOP unix loopTree true 0 "loop"
           unix_unixlike loopTree_loop_cyclic).
Defined.

Example loopTree_pair_of_links :
  resolveInRoot unix loopTree true true 40 0 "a/x" = Some (Failed ELOOP, 8)
  /\ resolveInRoot unix loopTree true true 40 0 "d/f" = Some (Reached NFile, 0).
Proof. split; reflexivity. Qed.

(** * Further properties of the two files *)

(** ** splitPathInRoot: outcomes, shape of the result, re-splitting *)

Lemma isComponent_head (c : string) :
  isComponent c = true ->
  exists x c', c = String x c' /\ Ascii.eqb x "/"%char = false /\ noSep c' = true.
Proof.
  unfold isComponent. destruct c as [|x c']; [discriminate|].
  simpl. intros H. apply andb_true_iff in H. destruct H as [Hx Hc].
  exists x, c'. repeat split; [now apply negb_true_iff | exact Hc].
Qed.

Lemma wellFormedMore_components (more : list (string * string)) :
  wellFormedMore more = true ->
  Forall (fun c => isComponent c = true) (map snd more).
Proof.
  induction more as [|[sp c] more IH]; simpl; [constructor|].
  intros H. apply andb_true_iff in H. destruct H as [H1 H2].
  apply andb_true_iff in H1. destruct H1 as [_ Hc].
  constructor; [exact Hc | now apply IH].
Qed.

Lemma Forall_removelast {A} (P : A -> Prop) (l : list A) :
  Forall P l -> Forall P (removelast l).
Proof.
  induction 1 as [|x l Hx Hl IH]; simpl; [constructor|].
  destruct l; [constructor | constructor; assumption].
Qed.

Lemma Forall_lastPart (P : string -> Prop) (l : list string) :
  l <> [] -> Forall P l -> P (lastPart l).
Proof.
  intros Hne Hall. rewrite Forall_forall in Hall. apply Hall.
  unfold lastPart. destruct l as [|x l]; [congruence|].
  destruct (exists_last (l := x :: l) ltac:(discriminate)) as (l' & a & E).
  rewrite E, last_last. apply in_or_app. right. now left.
Qed.

Lemma filter_notDot_Forall (l : list string) :
  Forall (fun c => c <> ".") (filter notDot l).
Proof.
  apply Forall_forall. intros c Hc. apply filter_In in Hc. destruct Hc as [_ Hc].
  unfold notDot in Hc. apply negb_true_iff in Hc. now apply String.eqb_neq.
Qed.

Lemma filter_notDot_id (l : list string) :
  Forall (fun c => c <> ".") l -> filter notDot l = l.
Proof.
  induction 1 as [|c l Hc _ IH]; simpl; [reflexivity|].
  unfold notDot at 1. apply String.eqb_neq in Hc. rewrite Hc. simpl. now rewrite IH.
Qed.

(** What a successful split without prefix and suffix looks like. *)
Lemma splitPathInRoot_shape (pf : Platform) (s : string)
    (parts : list string) (suffixSep : string) :
  unixlike pf ->
  splitPathInRoot pf s [] [] = Some (parts, suffixSep, None) ->
  parts <> []
  /\ Forall (fun c => isComponent c = true) parts
  /\ Forall (fun c => c <> ".") (removelast parts)
  /\ allSep suffixSep = true
  /\ exists body, s = (body ++ suffixSep)%string.
Proof.
  intros Hpf Hsplit.
  destruct s as [|x s].
  { unfold splitPathInRoot in Hsplit. simpl in Hsplit. discriminate. }
  destruct (Ascii.eqb x "/"%char) eqn:Hx.
  { unfold splitPathInRoot in Hsplit. simpl in Hsplit. unfold byteAt in Hsplit.
    simpl in Hsplit. rewrite (proj2 Hpf), Hx in Hsplit. discriminate. }
  destruct (relative_path_components (String x s)) as (f & more & t & Hf & Hm & Ht & E).
  { discriminate. }
  { simpl. destruct s; simpl; now rewrite Hx. }
  rewrite E in Hsplit.
  rewrite (splitPathInRoot_on_components pf Hpf) in Hsplit by assumption.
  inversion Hsplit as [[Hparts Hsep]]. clear Hsplit.
  unfold cleanComponents. cbn [isNil negb]. rewrite andb_false_r, !app_nil_r.
  assert (Hcomps : Forall (fun c => isComponent c = true) (f :: map snd more))
    by (constructor; [exact Hf | now apply wellFormedMore_components]).
  subst t.
  repeat split.
  - intros Habs. apply app_eq_nil in Habs. destruct Habs as [_ Habs]. discriminate.
  - apply Forall_app. split.
    + apply Forall_forall. intros c Hc. apply filter_In in Hc. destruct Hc as [Hc _].
      apply Forall_removelast in Hcomps. rewrite Forall_forall in Hcomps. now apply Hcomps.
    + constructor; [|constructor].
      apply (Forall_lastPart (fun c => isComponent c = true)); [discriminate | exact Hcomps].
  - rewrite removelast_last. apply filter_notDot_Forall.
  - exact Ht.
  - exists (f ++ joinMore more)%string. rewrite E. unfold buildPath.
    now rewrite string_app_assoc.
Qed.

(** X1.  On a platform whose separator is the slash, splitPathInRoot
    fails in exactly two ways: on the empty path, with the error "empty
    path", and on a path that starts with a slash, with errPathEscapes; every
    other path is split without an error. *)
Theorem splitPathInRoot_outcomes
    (pf : Platform) (s : string) (prefix suffix : list string) :
  unixlike pf ->
  (s = EmptyString /\
   splitPathInRoot pf s prefix suffix
   = Some ([], EmptyString, Some (errorString "empty path")))
  \/ ((exists r, s = String "/"%char r) /\
      splitPathInRoot pf s prefix suffix = Some ([], EmptyString, Some errPathEscapes))
  \/ (s <> EmptyString /\ (forall r, s <> String "/"%char r) /\
      exists parts suffixSep,
        splitPathInRoot pf s prefix suffix = Some (parts, suffixSep, None)).
Proof.
  intros Hpf.
  destruct s as [|x s]; [left; split; reflexivity|].
  right. destruct (Ascii.eqb x "/"%char) eqn:Hx.
  - left. apply Ascii.eqb_eq in Hx. subst x. split; [now exists s|].
    unfold splitPathInRoot. simpl. unfold byteAt. simpl. now rewrite (proj2 Hpf).
  - right. split; [discriminate|]. split.
    + intros r Hr. inversion Hr. subst. discriminate.
    + destruct (relative_path_components (String x s))
        as (f & more & t & Hf & Hm & Ht & E).
      * discriminate.
      * simpl. destruct s; simpl; now rewrite Hx.
      * rewrite E. rewrite (splitPathInRoot_on_components pf Hpf) by assumption. eauto.
Qed.

Lemma splitPathInRoot_outcomes_witness :
  splitPathInRoot unix EmptyString ["p"] ["s"]
  = Some ([], EmptyString, Some (errorString "empty path"))
  /\ splitPathInRoot unix "/etc/passwd" ["p"] ["s"]
     = Some ([], EmptyString, Some errPathEscapes)
  /\ exists parts suffixSep,
       splitPathInRoot unix "a/b/" ["p"] ["s"] = Some (parts, suffixSep, None).
Proof.
  split; [|split].
  - destruct (splitPathInRoot_outcomes unix EmptyString ["p"] ["s"] unix_unixlike)
      as [[_ H] | [[[r Hr] _] | [Hne _]]];
      [exact H | discriminate Hr | congruence].
  - destruct (splitPathInRoot_outcomes unix "/etc/passwd" ["p"] ["s"] unix_unixlike)
      as [[Hs _] | [[_ H] | [_ [Hns _]]]];
      [discriminate Hs | exact H | now destruct (Hns "etc/passwd")].
  - destruct (splitPathInRoot_outcomes unix "a/b/" ["p"] ["s"] unix_unixlike)
      as [[Hs _] | [[[r Hr] _] | [_ [_ H]]]];
      [discriminate Hs | discriminate Hr | exact H].
Defined.

(** X2.  The components a successful split returns (no prefix, no suffix)
    are never empty and never contain a slash, there is at least one, "."
    can only be the last of them, and the trailing text consists of slashes
    only and is the end of the path that was split. *)
Theorem splitPathInRoot_components_clean
    (pf : Platform) (s : string) (parts : list string) (suffixSep : string) :
  unixlike pf ->
  splitPathInRoot pf s [] [] = Some (parts, suffixSep, None) ->
  parts <> []
  /\ Forall (fun c => c <> EmptyString /\ noSep c = true) parts
  /\ Forall (fun c => c <> ".") (removelast parts)
  /\ allSep suffixSep = true
  /\ exists body, s = (body ++ suffixSep)%string.
Proof.
  intros Hpf Hsplit.
  destruct (splitPathInRoot_shape pf s parts suffixSep Hpf Hsplit)
    as (H1 & H2 & H3 & H4 & H5).
  repeat split; try assumption.
  eapply Forall_impl; [|exact H2].
  intros c Hc. unfold isComponent in Hc. apply andb_true_iff in Hc.
  destruct Hc as [Hne Hns]. split; [|exact Hns].
  apply negb_true_iff in Hne. now apply String.eqb_neq.
Qed.

Lemma splitPathInRoot_components_clean_witness :
  ["a"; "b"; "."] <> []
  /\ Forall (fun c => c <> EmptyString /\ noSep c = true) ["a"; "b"; "."]
  /\ Forall (fun c => c <> ".") (removelast ["a"; "b"; "."])
  /\ allSep "//" = true
  /\ exists body, "a/.//b/.//" = (body ++ "//")%string.
Proof.
  exact (splitPathInRoot_components_clean unix "a/.//b/.//" ["a"; "b"; "."] "//"
           unix_unixlike eq_refl).
Defined.

Lemma concat_slash_joinMore (p : string) (rest : list string) :
  String.concat "/" (p :: rest)
  = (p ++ joinMore (map (fun c => ("/", c)) rest))%string.
Proof.
  revert p. induction rest as [|c rest IH]; intros p.
  - simpl. now rewrite string_app_nil_r.
  - change (String.concat "/" (p :: c :: rest))
      with (p ++ "/" ++ String.concat "/" (c :: rest))%string.
    rewrite IH. reflexivity.
Qed.

Lemma wellFormedMore_slashes (rest : list string) :
  Forall (fun c => isComponent c = true) rest ->
  wellFormedMore (map (fun c => ("/", c)) rest) = true.
Proof.
  induction 1 as [|c rest Hc _ IH]; simpl; [reflexivity|].
  now rewrite Hc, IH.
Qed.

(** X3.  Splitting is idempotent on what it produces: joining the
    components of a successful split with single slashes, putting the
    trailing separators back and splitting again gives the same components and
    the same trailing separators. *)
Theorem splitPathInRoot_resplit
    (pf : Platform) (s : string) (parts : list string) (suffixSep : string) :
  unixlike pf ->
  splitPathInRoot pf s [] [] = Some (parts, suffixSep, None) ->
  splitPathInRoot pf (String.concat "/" parts ++ suffixSep) [] []
  = Some (parts, suffixSep, None).
Proof.
  intros Hpf Hsplit.
  destruct (splitPathInRoot_shape pf s parts suffixSep Hpf Hsplit)
    as (Hne & Hcomp & Hdots & Hsep & _).
  destruct parts as [|p rest]; [congruence|].
  inversion Hcomp as [|? ? Hp Hrest]. subst.
  rewrite concat_slash_joinMore, string_app_assoc.
  change (p ++ joinMore (map (fun c => ("/", c)) rest) ++ suffixSep)%string
    with (buildPath p (map (fun c => ("/", c)) rest) suffixSep).
  rewrite (splitPathInRoot_on_components pf Hpf);
    [ | exact Hp | now apply wellFormedMore_slashes | exact Hsep ].
  rewrite map_map. cbn [snd]. rewrite map_id.
  unfold cleanComponents. cbn [isNil negb app]. rewrite andb_false_r, app_nil_r.
  rewrite filter_notDot_id by exact Hdots.
  unfold lastPart. rewrite <- app_removelast_last by discriminate. reflexivity.
Qed.

Lemma splitPathInRoot_resplit_witness :
  splitPathInRoot unix (String.concat "/" ["a"; "b"; "."] ++ "//") [] []
  = Some (["a"; "b"; "."], "//", None).
Proof.
  exact (splitPathInRoot_resplit unix "a/.//b/.//" ["a"; "b"; "."] "//"
           unix_unixlike eq_refl).
Defined.

(** A path is empty, starts with a slash, or is given by components. *)
Lemma splitPathInRoot_outcomes_aux (pf : Platform) (s : string) :
  unixlike pf ->
  s = EmptyString
  \/ (exists r, s = String "/"%char r)
  \/ exists first more t,
       isComponent first = true /\ wellFormedMore more = true /\ allSep t = true
       /\ s = buildPath first more t.
Proof.
  intros _. destruct s as [|x s]; [now left|]. right.
  destruct (Ascii.eqb x "/"%char) eqn:Hx.
  - left. apply Ascii.eqb_eq in Hx. subst. now exists s.
  - right. apply relative_path_components; [discriminate|].
    simpl. destruct s; simpl; now rewrite Hx.
Qed.

(** X4.  The prefix is handed through untouched: with the same suffix, the
    split of a path under a prefix is the prefix followed by the split of the
    path under no prefix, with the same trailing separators. *)
Theorem splitPathInRoot_prefix_passthrough
    (pf : Platform) (s : string) (prefix suffix parts : list string)
    (suffixSep : string) :
  unixlike pf ->
  splitPathInRoot pf s [] suffix = Some (parts, suffixSep, None) ->
  splitPathInRoot pf s prefix suffix = Some (prefix ++ parts, suffixSep, None).
Proof.
  intros Hpf Hsplit.
  destruct (splitPathInRoot_outcomes_aux pf s Hpf) as [-> | [[r ->] | Hrel]].
  - unfold splitPathInRoot in Hsplit. simpl in Hsplit. discriminate.
  - unfold splitPathInRoot in Hsplit. simpl in Hsplit. unfold byteAt in Hsplit.
    simpl in Hsplit. rewrite (proj2 Hpf) in Hsplit. discriminate.
  - destruct Hrel as (f & more & t & Hf & Hm & Ht & E).
    rewrite E in *.
    rewrite (splitPathInRoot_on_components pf Hpf) in Hsplit by assumption.
    rewrite (splitPathInRoot_on_components pf Hpf) by assumption.
    cbn [app] in Hsplit. inversion Hsplit. reflexivity.
Qed.

Lemma splitPathInRoot_prefix_passthrough_witness :
  splitPathInRoot unix "./x/." ["p"; "."] ["s"] = Some (["p"; "."] ++ ["x"; "s"], EmptyString, None).
Proof.
  exact (splitPathInRoot_prefix_passthrough unix "./x/." ["p"; "."] ["s"] ["x"; "s"]
           EmptyString unix_unixlike eq_refl).
Defined.

(** ** shorten and fixErr *)

Lemma substring_0_all (s : string) : substring 0 (String.length s) s = s.
Proof.
  rewrite <- (string_app_nil_r s) at 2. apply substring_0_app.
Qed.

(** A string is what is before an index, the byte at it and what is after. *)
Lemma string_split_at (name : string) :
  forall n, n < String.length name ->
    name = (substring 0 n name
            ++ String (byteAt name n)
                 (substring (S n) (String.length name - S n) name))%string.
Proof.
  induction name as [|x name IH]; intros n Hn; [simpl in Hn; lia|].
  destruct n as [|n].
  - cbn [substring String.append String.length]. unfold byteAt. cbn [String.get].
    replace (S (String.length name) - 1) with (String.length name) by lia.
    rewrite substring_0_all. reflexivity.
  - cbn [substring String.append String.length]. unfold byteAt. cbn [String.get].
    simpl in Hn. replace (S (String.length name) - S (S n))
      with (String.length name - S n) by lia.
    rewrite (IH n) at 1 by lia. reflexivity.
Qed.

Lemma shorten_accepts (f : subFS) (name rel : string) :
  shorten f name = (rel, true) ->
  (name = dir f /\ rel = ".")
  \/ (rel <> EmptyString /\ name = (dir f ++ "/" ++ rel)%string).
Proof.
  unfold shorten.
  destruct (String.eqb name (dir f)) eqn:He.
  - intros H. inversion H. left. split; [now apply String.eqb_eq | reflexivity].
  - destruct (Nat.leb (len (dir f) + 2) (len name)) eqn:Hlen; [|discriminate].
    destruct (Ascii.eqb (byteAt name (len (dir f))) "/"%char) eqn:Hb; [|discriminate].
    destruct (String.eqb (slice name 0 (len (dir f))) (dir f)) eqn:Hs; [|discriminate].
    cbn [andb]. intros H. inversion H as [Hrel]. clear H. right.
    apply Nat.leb_le in Hlen. apply Ascii.eqb_eq in Hb. apply String.eqb_eq in Hs.
    unfold slice, sliceFrom, len in *. rewrite Nat.sub_0_r in Hs.
    pose proof (string_split_at name (String.length (dir f)) ltac:(lia)) as E.
    rewrite Hs, Hb in E. rewrite Nat.add_1_r.
    split; [|exact E].
    intros Hnil. rewrite Hnil in E. rewrite E in Hlen.
    rewrite len_append in Hlen. simpl in Hlen. lia.
Qed.

(** X5.  [shorten] accepts exactly two kinds of names: the directory
    itself, which becomes ".", and the directory followed by a slash and a
    non-empty rest, which becomes that rest; everything else, the directory
    followed by a bare slash included, is refused with the empty string. *)
Theorem shorten_exact (f : subFS) (name rel : string) :
  (shorten f name = (rel, true) <->
   (name = dir f /\ rel = ".")
   \/ (rel <> EmptyString /\ name = (dir f ++ "/" ++ rel)%string))
  /\ (shorten f name = (rel, false) -> rel = EmptyString)
  /\ shorten f (dir f ++ "/") = (EmptyString, false).
Proof.
  split; [split|split].
  - apply shorten_accepts.
  - intros [[-> ->] | [Hne ->]].
    + unfold shorten. now rewrite String.eqb_refl.
    + now apply shorten_prefixed.
  - unfold shorten.
    destruct (String.eqb name (dir f)); [discriminate|].
    destruct (_ && _ && _); [discriminate|]. congruence.
  - destruct (shorten f (dir f ++ "/")) as [r ok] eqn:Hs.
    destruct ok.
    + apply shorten_accepts in Hs. destruct Hs as [[Habs _] | [Hne Habs]].
      * apply (f_equal String.length) in Habs. rewrite len_append in Habs.
        simpl in Habs. lia.
      * apply (f_equal String.length) in Habs. rewrite !len_append in Habs.
        simpl in Habs. destruct r; [congruence | simpl in Habs; lia].
    + unfold shorten in Hs.
      destruct (String.eqb (dir f ++ "/") (dir f)); [discriminate|].
      destruct (_ && _ && _); [discriminate|]. congruence.
Qed.

(** ** The wrapper's methods, one name *)

(** X6.  Every one-name method of the wrapper refuses an invalid name
    before asking the store: it returns the zero value and a [PathError] with
    [ErrInvalid], the name as given, and the operation the method passes to
    [fullName] ("read" for Stat, ReadDir and ReadFile alike). *)
Theorem subFS_invalid_name_no_call {imp : Imports} (f : subFS) (name : string) :
  ValidPath name = false ->
  subFS_Open f name = Ret (None, Some (PathError "open" name ErrInvalid))
  /\ (forall flag perm,
        subFS_OpenFile f name flag perm
        = Ret (None, Some (PathError "openfile" name ErrInvalid)))
  /\ subFS_Create f name = Ret (None, Some (PathError "create" name ErrInvalid))
  /\ subFS_Stat f name = Ret (None, Some (PathError "read" name ErrInvalid))
  /\ subFS_ReadDir f name = Ret ([], Some (PathError "read" name ErrInvalid))
  /\ subFS_ReadFile f name = Ret ([], Some (PathError "read" name ErrInvalid))
  /\ subFS_ReadLink f name
     = Ret (EmptyString, Some (PathError "readlink" name ErrInvalid))
  /\ subFS_Lstat f name = Ret (None, Some (PathError "lstat" name ErrInvalid))
  /\ (forall perm,
        subFS_Mkdir f name perm = Ret (Some (PathError "mkdir" name ErrInvalid)))
  /\ (forall perm,
        subFS_MkdirAll f name perm = Ret (Some (PathError "MkdirAll" name ErrInvalid)))
  /\ (forall mode,
        subFS_Chmod f name mode = Ret (Some (PathError "chmod" name ErrInvalid)))
  /\ (forall uid gid,
        subFS_Chown f name uid gid = Ret (Some (PathError "chown" name ErrInvalid)))
  /\ (forall atime mtime,
        subFS_Chtimes f name atime mtime
        = Ret (Some (PathError "chtimes" name ErrInvalid)))
  /\ subFS_Remove f name = Ret (Some (PathError "remove" name ErrInvalid))
  /\ subFS_RemoveAll f name = Ret (Some (PathError "RemoveAll" name ErrInvalid))
  /\ (forall p, name <> "." ->
        subFS_Sub p f name = Ret (None, Some (PathError "sub" name ErrInvalid))).
Proof.
  intros Hv.
  unfold subFS_Open, subFS_OpenFile, subFS_Create, subFS_Stat, subFS_ReadDir,
    subFS_ReadFile, subFS_ReadLink, subFS_Lstat, subFS_Mkdir, subFS_MkdirAll,
    subFS_Chmod, subFS_Chown, subFS_Chtimes, subFS_Remove, subFS_RemoveAll, subFS_Sub.
  rewrite !(fullName_invalid f _ name Hv).
  repeat split.
  intros p Hne. apply String.eqb_neq in Hne. now rewrite Hne.
Qed.

Lemma subFS_invalid_name_no_call_witness :
  subFS_Stat (imp := spec_imports) xSub "../y"
  = Ret (None, Some (PathError "read" "../y" ErrInvalid))
  /\ subFS_RemoveAll (imp := spec_imports) xSub "../y"
     = Ret (Some (PathError "RemoveAll" "../y" ErrInvalid)).
Proof.
  pose proof (subFS_invalid_name_no_call (imp := spec_imports) xSub "../y" eq_refl) as H.
  split; apply H.
Defined.

Ltac restore_path h w Hv Hj Hne :=
  intros;
  unfold subFS_Open, subFS_Create, subFS_ReadDir, subFS_ReadFile, subFS_ReadLink,
    subFS_Lstat, subFS_Mkdir, subFS_MkdirAll, subFS_Chmod, subFS_Chown,
    subFS_Chtimes, subFS_Remove, subFS_RemoveAll, fullName;
  rewrite Hv, Hj; cbn [negb bind call run];
  match goal with
  | |- context [h ?T ?e w] => destruct (h T e w) as [[? ?] ?] || destruct (h T e w) as [? ?]
  end;
  cbn [fst snd] in *; subst; cbn [bind run fst snd fixErr];
  rewrite (shorten_prefixed _ _ Hne); reflexivity.

(** X7.  Wherever the wrapped store fails with a [PathError] on the
    prefixed name, every one-name method other than Stat hands the caller
    that error with the name as the caller gave it, operation and cause
    unchanged.  The name is valid and non-empty and [path.Join] puts the
    directory and a slash before it. *)
Theorem subFS_error_path_restored
    {imp : Imports} (f : subFS) (name : string) (op : string) (e : error)
    (W : Type) (h : handler fsE W) (w : W) :
  ValidPath name = true ->
  path_Join (dir f) name = (dir f ++ "/" ++ name)%string ->
  name <> EmptyString ->
  let full := (dir f ++ "/" ++ name)%string in
  let bad := Some (PathError op full e) in
  let good := Some (PathError op name e) in
  (snd (fst (h _ (Fs_Open (fsys f) full) w)) = bad ->
   snd (fst (fst (run h (subFS_Open f name) w))) = good)
  /\ (snd (fst (h _ (Fs_Create (fsys f) full) w)) = bad ->
      snd (fst (fst (run h (subFS_Create f name) w))) = good)
  /\ (snd (fst (h _ (Fs_ReadDir (fsys f) full) w)) = bad ->
      snd (fst (fst (run h (subFS_ReadDir f name) w))) = good)
  /\ (snd (fst (h _ (Fs_ReadFile (fsys f) full) w)) = bad ->
      snd (fst (fst (run h (subFS_ReadFile f name) w))) = good)
  /\ (snd (fst (h _ (Fs_ReadLink (fsys f) full) w)) = bad ->
      fst (fst (run h (subFS_ReadLink f name) w)) = (EmptyString, good))
  /\ (snd (fst (h _ (Fs_Lstat (fsys f) full) w)) = bad ->
      fst (fst (run h (subFS_Lstat f name) w)) = (None, good))
  /\ (forall perm,
        fst (h _ (Fs_Mkdir (fsys f) full perm) w) = bad ->
        fst (fst (run h (subFS_Mkdir f name perm) w)) = good)
  /\ (forall perm,
        fst (h _ (Fs_MkdirAll (fsys f) full perm) w) = bad ->
        fst (fst (run h (subFS_MkdirAll f name perm) w)) = good)
  /\ (forall mode,
        fst (h _ (Fs_Chmod (fsys f) full mode) w) = bad ->
        fst (fst (run h (subFS_Chmod f name mode) w)) = good)
  /\ (forall uid gid,
        fst (h _ (Fs_Chown (fsys f) full uid gid) w) = bad ->
        fst (fst (run h (subFS_Chown f name uid gid) w)) = good)
  /\ (forall atime mtime,
        fst (h _ (Fs_Chtimes (fsys f) full atime mtime) w) = bad ->
        fst (fst (run h (subFS_Chtimes f name atime mtime) w)) = good)
  /\ (fst (h _ (Fs_Remove (fsys f) full) w) = bad ->
      fst (fst (run h (subFS_Remove f name) w)) = good)
  /\ (fst (h _ (Fs_RemoveAll (fsys f) full) w) = bad ->
      fst (fst (run h (subFS_RemoveAll f name) w)) = good).
Proof.
  intros Hv Hj Hne full bad good. subst full bad good.
  repeat split; restore_path h w Hv Hj Hne.
Qed.

Lemma subFS_error_path_restored_witness :
  snd (fst (fst (run (stubStore EmptyString [])
                     (subFS_Open (imp := spec_imports) xSub "y/z") tt)))
  = Some (PathError "open" "y/z" ErrNotExist)
  /\ fst (fst (run (stubStore EmptyString [])
                   (subFS_Remove (imp := spec_imports) xSub "y/z") tt))
     = Some (PathError "remove" "y/z" ErrNotExist).
Proof.
  split.
  - apply (subFS_error_path_restored (imp := spec_imports) xSub "y/z" "open" ErrNotExist
             unit (stubStore EmptyString []) tt eq_refl eq_refl
             (fun H : "y/z" = EmptyString => eq_ind "y/z"%string
                (fun s => match s with EmptyString => False | _ => True end) I _ H)).
    reflexivity.
  - apply (subFS_error_path_restored (imp := spec_imports) xSub "y/z" "remove" ErrNotExist
             unit (stubStore EmptyString []) tt eq_refl eq_refl
             (fun H : "y/z" = EmptyString => eq_ind "y/z"%string
                (fun s => match s with EmptyString => False | _ => True end) I _ H)).
    reflexivity.
Defined.

(** ** The wrapper's methods, two names *)

(** X8.  With two valid names, Rename, Link and Symlink of the wrapper
    issue exactly one call, with both names prefixed; what the store answers
    goes through [fixErr], which rewrites a [PathError] only: nil stays nil,
    and a [LinkError] comes back as the store built it, with the prefixed
    names still in it. *)
Theorem subFS_two_names_forwarded
    {imp : Imports} (f : subFS) (oldname newname : string)
    (W : Type) (h : handler fsE W) (w : W) :
  ValidPath oldname = true ->
  ValidPath newname = true ->
  let fullOld := path_Join (dir f) oldname in
  let fullNew := path_Join (dir f) newname in
  (forall op o n e, fixErr f (Some (LinkError op o n e)) = Some (LinkError op o n e))
  /\ fixErr f None = None
  /\ run h (subFS_Rename f oldname newname) w
     = (let '(err, w') := h _ (Fs_Rename (fsys f) fullOld fullNew) w in
        (fixErr f err, w', [issue (Fs_Rename (fsys f) fullOld fullNew) err]))
  /\ run h (subFS_Link f oldname newname) w
     = (let '(err, w') := h _ (Fs_Link (fsys f) fullOld fullNew) w in
        (fixErr f err, w', [issue (Fs_Link (fsys f) fullOld fullNew) err]))
  /\ run h (subFS_Symlink f oldname newname) w
     = (let '(err, w') := h _ (Fs_Symlink (fsys f) fullOld fullNew) w in
        (fixErr f err, w', [issue (Fs_Symlink (fsys f) fullOld fullNew) err])).
Proof.
  intros Ho Hn fullOld fullNew. subst fullOld fullNew.
  unfold subFS_Rename, subFS_Link, subFS_Symlink.
  rewrite !(fullName_valid f _ oldname Ho), !(fullName_valid f _ newname Hn).
  cbn [bind call run].
  repeat split;
    match goal with
    | |- context [h ?T ?e w] => destruct (h T e w) as [err w']
    end; reflexivity.
Qed.

Lemma subFS_two_names_forwarded_witness :
  run (stubStore EmptyString []) (subFS_Rename (imp := spec_imports) xSub "a" "b") tt
  = (Some (PathError "rename" "a" ErrNotExist), tt,
     [issue (Fs_Rename (StoreFS 0) "x/a" "x/b")
            (Some (PathError "rename" "x/a" ErrNotExist))]).
Proof.
  exact (proj1 (proj2 (proj2 (subFS_two_names_forwarded (imp := spec_imports)
           xSub "a" "b" unit (stubStore EmptyString []) tt eq_refl eq_refl)))).
Defined.

(** ** Sub, OpenFile and Glob *)

(** X9.  Subtrees do not nest.  [Sub] of a wrapper at a valid directory
    other than "." allocates one new wrapper over the store the old wrapper
    wraps, with the old directory joined to the new one, and asks the store
    nothing; [Sub] of a store without a Sub method allocates one wrapper over
    that store; [Sub] of a store with a Sub method hands the call to it and
    allocates nothing. *)
Theorem Sub_flattens
    {imp : Imports} (dirname : string) (W : Type) (h : handler fsE W) (w : W) :
  ValidPath dirname = true ->
  dirname <> "." ->
  (forall p f,
      let new := Build_subFS (fsys f) (path_Join (dir f) dirname) in
      run h (Sub (PtrSubFS p f) dirname) w
      = (let '(q, w') := h _ (New_subFS new) w in
         ((Some (PtrSubFS q new), None), w', [issue (New_subFS new) q])))
  /\ (forall id,
        implementsSubFS id = false ->
        let new := Build_subFS (StoreFS id) dirname in
        run h (Sub (StoreFS id) dirname) w
        = (let '(q, w') := h _ (New_subFS new) w in
           ((Some (PtrSubFS q new), None), w', [issue (New_subFS new) q])))
  /\ (forall id,
        implementsSubFS id = true ->
        run h (Sub (StoreFS id) dirname) w
        = (let '(res, w') := h _ (Fs_Sub (StoreFS id) dirname) w in
           (res, w', [issue (Fs_Sub (StoreFS id) dirname) res]))).
Proof.
  intros Hv Hdot. apply String.eqb_neq in Hdot.
  unfold Sub, subFS_Sub, fullName. rewrite Hv, Hdot. cbn [negb].
  split; [|split].
  - intros p f. cbn [bind call run].
    destruct (h _ _ w) as [q w']. reflexivity.
  - intros id Hid. rewrite Hid. cbn [bind call run].
    destruct (h _ _ w) as [q w']. reflexivity.
  - intros id Hid. rewrite Hid. cbn [bind call run].
    destruct (h _ _ w) as [res w']. reflexivity.
Qed.

Lemma Sub_flattens_witness :
  run (stubStore EmptyString []) (Sub (imp := spec_imports) (PtrSubFS 5 xSub) "y") tt
  = ((Some (PtrSubFS 0 (Build_subFS (StoreFS 0) "x/y")), None), tt,
     [issue (New_subFS (Build_subFS (StoreFS 0) "x/y")) 0]).
Proof.
  refine (proj1 (Sub_flattens (imp := spec_imports) "y" unit (stubStore EmptyString []) tt
                   eq_refl _) 5 xSub).
  intros H. exact (eq_ind "y"%string
    (fun s => match s with String "y" _ => True | _ => False end) I _ H).
Defined.

(** X10.  Over a store that has no OpenFile method, [OpenFile] and the
    wrapper's OpenFile fail with "openfile" and [ErrInvalid] without a call;
    the wrapper's error carries the name the caller gave, not the prefixed
    one the helper was handed. *)
Theorem OpenFile_unsupported_store
    {imp : Imports} (id : nat) (d name : string) (flag : Z) (perm : FileMode) :
  implementsOpenFileFS id = false ->
  ValidPath name = true ->
  path_Join d name = (d ++ "/" ++ name)%string ->
  name <> EmptyString ->
  OpenFile (StoreFS id) name flag perm
  = Ret (None, Some (PathError "openfile" name ErrInvalid))
  /\ subFS_OpenFile (Build_subFS (StoreFS id) d) name flag perm
     = Ret (None, Some (PathError "openfile" name ErrInvalid)).
Proof.
  intros Hid Hv Hj Hne.
  assert (Hs : shorten (Build_subFS (StoreFS id) d) (d ++ "/" ++ name) = (name, true))
    by exact (shorten_prefixed (Build_subFS (StoreFS id) d) name Hne).
  unfold subFS_OpenFile, fullName, OpenFile. cbn [dir fsys isOpenFileFS].
  rewrite Hid, Hv, Hj. cbn [negb bind fixErr].
  rewrite Hs. split; reflexivity.
Qed.

Lemma OpenFile_unsupported_store_witness :
  OpenFile (imp := spec_imports) (StoreFS 0) "y/z" O_RDWR 420%Z
  = Ret (None, Some (PathError "openfile" "y/z" ErrInvalid))
  /\ subFS_OpenFile (imp := spec_imports) xSub "y/z" O_RDWR 420%Z
     = Ret (None, Some (PathError "openfile" "y/z" ErrInvalid)).
Proof.
  refine (OpenFile_unsupported_store (imp := spec_imports) 0 "x" "y/z" O_RDWR 420%Z
            eq_refl eq_refl eq_refl _).
  intros H. exact (eq_ind "y/z"%string
    (fun s => match s with EmptyString => False | _ => True end) I _ H).
Defined.

Lemma shortenAll_accepts (f : subFS) (names : list string) :
  Forall (fun m => m = dir f
                   \/ exists rel, rel <> EmptyString /\ m = (dir f ++ "/" ++ rel)%string)
         names ->
  exists rels,
    shortenAll f names = (rels, None)
    /\ Forall2 (fun m rel => (m = dir f /\ rel = ".")
                             \/ (rel <> EmptyString /\ m = (dir f ++ "/" ++ rel)%string))
               names rels.
Proof.
  induction 1 as [|m names Hm _ (rels & Hrels & Hall)].
  - exists []. split; [reflexivity | constructor].
  - cbn [shortenAll].
    destruct Hm as [-> | (rel & Hne & ->)].
    + exists ("."%string :: rels). unfold shorten at 1. rewrite String.eqb_refl.
      cbn [negb]. rewrite Hrels. split; [reflexivity|].
      constructor; [left; split; reflexivity | exact Hall].
    + exists (rel :: rels). rewrite shorten_prefixed by assumption.
      cbn [negb]. rewrite Hrels. split; [reflexivity|].
      constructor; [right; split; [assumption | reflexivity] | exact Hall].
Qed.

(** X11.  When every match the store returns is the wrapper's directory or
    lies below it, [Glob] returns one name per match, in the store's order:
    "." for the directory itself, the part after the directory and the slash
    for the others; the store's own error is passed on through [fixErr]. *)
Theorem subFS_Glob_keeps_order
    {imp : Imports} (f : subFS) (pattern : string)
    (W : Type) (h : handler fsE W) (w w' : W)
    (names : list string) (err : option error) :
  path_Match_err pattern = None ->
  pattern <> "." ->
  h _ (Fs_Glob (fsys f) (dir f ++ "/" ++ pattern)) w = ((names, err), w') ->
  Forall (fun m => m = dir f
                   \/ exists rel, rel <> EmptyString /\ m = (dir f ++ "/" ++ rel)%string)
         names ->
  exists rels,
    fst (fst (run h (subFS_Glob f pattern) w)) = (rels, fixErr f err)
    /\ Forall2 (fun m rel => (m = dir f /\ rel = ".")
                             \/ (rel <> EmptyString /\ m = (dir f ++ "/" ++ rel)%string))
               names rels.
Proof.
  intros Hwf Hdot Hreply Hnames.
  apply String.eqb_neq in Hdot.
  destruct (shortenAll_accepts f names Hnames) as (rels & Hrels & Hall).
  exists rels. split; [|exact Hall].
  unfold subFS_Glob. rewrite Hwf, Hdot. cbn [bind call run].
  rewrite Hreply, Hrels. reflexivity.
Qed.

Lemma subFS_Glob_keeps_order_witness :
  exists rels,
    fst (fst (run (stubStore EmptyString ["x/b"; "x"; "x/a/c"])
                  (subFS_Glob (imp := spec_imports) xSub "*") tt))
    = (rels, fixErr xSub None)
    /\ Forall2 (fun m rel => (m = dir xSub /\ rel = ".")
                             \/ (rel <> EmptyString /\ m = (dir xSub ++ "/" ++ rel)%string))
               ["x/b"; "x"; "x/a/c"] rels.
Proof.
  refine (subFS_Glob_keeps_order (imp := spec_imports) xSub "*" unit
            (stubStore EmptyString ["x/b"; "x"; "x/a/c"]) tt tt
            ["x/b"; "x"; "x/a/c"] None eq_refl _ eq_refl _).
  - intros H. exact (eq_ind "*"%string
      (fun s => match s with String "*" _ => True | _ => False end) I _ H).
  - constructor; [right; exists "b"%string; split; [discriminate | reflexivity]|].
    constructor; [left; reflexivity|].
    constructor; [right; exists "a/c"%string; split; [discriminate | reflexivity]|].
    constructor.
Defined.

(** ** The confined root: modes, flags, descriptors *)

Lemma land_511_small (perm : Z) :
  Z.land perm 511 = perm <-> (0 <= perm <= 511)%Z.
Proof.
  change (Z.land perm 511) with (Z.land perm (Z.ones 9)).
  rewrite Z.land_ones by lia.
  change (2 ^ 9)%Z with 512%Z. split.
  - intros H. pose proof (Z.mod_pos_bound perm 512 eq_refl) as B.
    rewrite H in B. lia.
  - intros H. apply Z.mod_small. lia.
Qed.

(** X12.  The mode test of [OpenFile], [Mkdir] and [MkdirAll] accepts
    exactly the modes from 0 to 0o777: with such a mode Mkdir and MkdirAll
    are the one call below the root with the arguments as given, and OpenFile
    reaches the open below the root with them; with any other mode, negative
    ones included, nothing is called. *)
Theorem Root_mode_test_exact
    {osimp : OsImports} (r : Root) (name : string) (flag : Z) (perm : FileMode) :
  ((0 <= perm <= 511)%Z ->
   Root_Mkdir r name perm = call (rootMkdir r name perm)
   /\ Root_MkdirAll r name perm = call (rootMkdirAll r name perm)
   /\ forall W (h : handler rootE W) w,
        exists reply,
          In (issue (rootOpenFileNolog r name flag perm) reply)
             (snd (run h (Root_OpenFile r name flag perm) w)))
  /\ (~ (0 <= perm <= 511)%Z ->
      Root_Mkdir r name perm
      = Ret (Some (PathError "mkdirat" name (errorString "unsupported file mode")))
      /\ Root_MkdirAll r name perm
         = Ret (Some (PathError "mkdirat" name (errorString "unsupported file mode")))
      /\ Root_OpenFile r name flag perm
         = Ret (None, Some (PathError "openat" name
                              (errorString "unsupported file mode")))).
Proof.
  unfold Root_Mkdir, Root_MkdirAll, Root_OpenFile, Root_logOpen.
  split; intros Hperm.
  - apply land_511_small in Hperm. apply Z.eqb_eq in Hperm. rewrite Hperm.
    cbn [negb]. repeat split.
    intros W h w. cbn [bind call run].
    destruct (h bool testlog_Logger w) as [log w1].
    destruct log; cbn [bind call run].
    + destruct (h string (root_Name r) w1) as [dirname w2].
      destruct (h unit (log_Open (joinPath dirname name)) w2) as [u w3].
      destruct (h _ (rootOpenFileNolog r name flag perm) w3) as [[rf err] w4].
      exists (rf, err). destruct err; cbn [run snd]; do 3 right; left; reflexivity.
    + destruct (h _ (rootOpenFileNolog r name flag perm) w1) as [[rf err] w4].
      exists (rf, err). destruct err; cbn [run snd]; right; left; reflexivity.
  - assert (H : Z.eqb (Z.land perm 511) perm = false).
    { apply Z.eqb_neq. intros H. apply Hperm. now apply land_511_small. }
    rewrite H. repeat split.
Qed.

Lemma Root_mode_test_exact_witness :
  Root_Mkdir 0 "d" 493%Z = call (rootMkdir 0 "d" 493%Z)
  /\ Root_Mkdir 0 "d" (-1)%Z
     = Ret (Some (PathError "mkdirat" "d" (errorString "unsupported file mode"))).
Proof.
  split.
  - refine (proj1 (proj1 (Root_mode_test_exact (osimp := spec_os_imports)
                            0 "d" O_RDONLY 493%Z) _)).
    split; discriminate.
  - refine (proj1 (proj2 (Root_mode_test_exact (osimp := spec_os_imports)
                            0 "d" O_RDONLY (-1)%Z) _)).
    intros [H _]. exact (H eq_refl).
Defined.

Lemma O_APPEND_bit (flag : Z) :
  negb (Z.eqb (Z.land flag O_APPEND) 0) = Z.testbit flag 10.
Proof.
  change O_APPEND with (2 ^ 10)%Z.
  destruct (Z.testbit flag 10) eqn:Hb.
  - apply negb_true_iff, Z.eqb_neq. intros H.
    assert (Z.testbit (Z.land flag (2 ^ 10)) 10 = true)
      by (rewrite Z.land_spec, Hb, Z.pow2_bits_true by lia; reflexivity).
    rewrite H in *. rewrite Z.bits_0 in *. discriminate.
  - apply negb_false_iff, Z.eqb_eq. apply Z.bits_inj'. intros n Hn.
    rewrite Z.land_spec, Z.bits_0, Z.pow2_bits_eqb by lia.
    destruct (Z.eqb_spec 10 n) as [<- | Hne]; [now rewrite Hb | apply andb_false_r].
Qed.

(** X13.  A file that [Root.OpenFile] returns is the one the open below
    the root returned, same descriptor, with [appendMode] set exactly when
    the O_APPEND bit (bit 10) of the flag is set. *)
Theorem Root_OpenFile_appendMode
    {osimp : OsImports} (r : Root) (name : string) (flag : Z) (perm : FileMode)
    (W : Type) (h : handler rootE W) (w w' : W)
    (rf : File) (tr : list (issued rootE)) :
  run h (Root_OpenFile r name flag perm) w = ((Some rf, None), w', tr) ->
  appendMode rf = Z.testbit flag 10
  /\ exists rf0,
       In (issue (rootOpenFileNolog r name flag perm) (Some rf0, None)) tr
       /\ fd rf = fd rf0.
Proof.
  unfold Root_OpenFile, Root_logOpen.
  destruct (negb (Z.eqb (Z.land perm 511) perm)); [cbn [run]; discriminate|].
  cbn [bind call run].
  destruct (h bool testlog_Logger w) as [log w1].
  destruct log; cbn [bind call run].
  - destruct (h string (root_Name r) w1) as [dirname w2].
    destruct (h unit (log_Open (joinPath dirname name)) w2) as [u w3].
    destruct (h _ (rootOpenFileNolog r name flag perm) w3) as [[rf0 err] w4].
    destruct err; cbn [bind call run]; [discriminate|].
    destruct rf0 as [rf0|]; cbn [option_map]; [|discriminate].
    intros H. inversion H. subst. cbn [appendMode fd].
    split; [apply O_APPEND_bit|].
    exists rf0. split; [do 3 right; left; reflexivity | reflexivity].
  - destruct (h _ (rootOpenFileNolog r name flag perm) w1) as [[rf0 err] w4].
    destruct err; cbn [bind call run]; [discriminate|].
    destruct rf0 as [rf0|]; cbn [option_map]; [|discriminate].
    intros H. inversion H. subst. cbn [appendMode fd].
    split; [apply O_APPEND_bit|].
    exists rf0. split; [right; left; reflexivity | reflexivity].
Qed.

Lemma Root_OpenFile_appendMode_witness :
  appendMode {| fd := 3; appendMode := true |} = Z.testbit 1025 10
  /\ exists rf0,
       In (issue (rootOpenFileNolog 0 "dir" 1025%Z 420%Z) (Some rf0, None))
          [issue testlog_Logger false;
           issue (rootOpenFileNolog 0 "dir" 1025%Z 420%Z)
                 (Some {| fd := 3; appendMode := false |}, None)]
       /\ fd {| fd := 3; appendMode := true |} = fd rf0.
Proof.
  exact (Root_OpenFile_appendMode (osimp := spec_os_imports) 0 "dir" 1025%Z 420%Z
           unit (stubPlatform []) tt tt {| fd := 3; appendMode := true |} _ eq_refl).
Defined.

(** X14.  On every platform, every one-name method of the adapter that
    [Root.FS] returns refuses a name that [fs.ValidPath] rejects before
    anything else: no log entry, no call, and for OpenFile, Mkdir and MkdirAll
    no look at the mode; the error is a [PathError] with [ErrInvalid] and the
    name as given, under "open" for OpenFile, "remove" for RemoveAll and
    "mkdir" for MkdirAll. *)
Theorem rootFS_invalid_name_no_call
    {imp : Imports} {osimp : OsImports} (pf : Platform) (r : Root) (name : string) :
  ValidPath name = false ->
  rootFS_Open pf r name = Ret (None, Some (PathError "open" name ErrInvalid))
  /\ (forall flag perm,
        rootFS_OpenFile pf r name flag perm
        = Ret (None, Some (PathError "open" name ErrInvalid)))
  /\ rootFS_Create pf r name = Ret (None, Some (PathError "create" name ErrInvalid))
  /\ rootFS_ReadDir pf r name = Ret ([], Some (PathError "readdir" name ErrInvalid))
  /\ rootFS_ReadFile pf r name = Ret ([], Some (PathError "readfile" name ErrInvalid))
  /\ rootFS_Stat pf r name = Ret (None, Some (PathError "stat" name ErrInvalid))
  /\ rootFS_Lstat pf r name = Ret (None, Some (PathError "lstat" name ErrInvalid))
  /\ rootFS_ReadLink pf r name
     = Ret (EmptyString, Some (PathError "readlink" name ErrInvalid))
  /\ rootFS_Remove pf r name = Ret (Some (PathError "remove" name ErrInvalid))
  /\ rootFS_RemoveAll pf r name = Ret (Some (PathError "remove" name ErrInvalid))
  /\ (forall perm,
        rootFS_Mkdir pf r name perm = Ret (Some (PathError "mkdir" name ErrInvalid)))
  /\ (forall perm,
        rootFS_MkdirAll pf r name perm = Ret (Some (PathError "mkdir" name ErrInvalid)))
  /\ (forall mode,
        rootFS_Chmod pf r name mode = Ret (Some (PathError "chmod" name ErrInvalid)))
  /\ (forall uid gid,
        rootFS_Chown pf r name uid gid = Ret (Some (PathError "chown" name ErrInvalid)))
  /\ (forall atime mtime,
        rootFS_Chtimes pf r name atime mtime
        = Ret (Some (PathError "chtimes" name ErrInvalid))).
Proof.
  intros Hv.
  assert (H : isValidRootFSPath pf name = false)
    by (unfold isValidRootFSPath; now rewrite Hv).
  unfold rootFS_Open, rootFS_OpenFile, rootFS_Create, rootFS_ReadDir, rootFS_ReadFile,
    rootFS_Stat, rootFS_Lstat, rootFS_ReadLink, rootFS_Remove, rootFS_RemoveAll,
    rootFS_Mkdir, rootFS_MkdirAll, rootFS_Chmod, rootFS_Chown, rootFS_Chtimes.
  rewrite H. repeat split.
Qed.

Lemma rootFS_invalid_name_no_call_witness :
  rootFS_OpenFile (imp := spec_imports) (osimp := spec_os_imports) unix 0 "a//b"
    O_RDONLY 4095%Z
  = Ret (None, Some (PathError "open" "a//b" ErrInvalid))
  /\ rootFS_RemoveAll (imp := spec_imports) (osimp := spec_os_imports) unix 0 "a//b"
     = Ret (Some (PathError "remove" "a//b" ErrInvalid)).
Proof.
  pose proof (rootFS_invalid_name_no_call (imp := spec_imports)
                (osimp := spec_os_imports) unix 0 "a//b" eq_refl) as H.
  split; apply H.
Defined.

(** Running a sequence is running its parts in turn. *)
Lemma run_bind {E W A B} (h : handler E W) (p : prog E A) (k : A -> prog E B) (w : W) :
  run h (bind p k) w
  = (let '(a, w1, t1) := run h p w in
     let '(b, w2, t2) := run h (k a) w1 in
     (b, w2, t1 ++ t2)).
Proof.
  revert w. induction p as [a | T e k0 IH]; intros w; cbn [bind run].
  - destruct (run h (k a) w) as [[b w2] t2]. reflexivity.
  - destruct (h T e w) as [t w1]. rewrite IH.
    destruct (run h (k0 t) w1) as [[a w2] t1].
    destruct (run h (k a) w2) as [[b w3] t2]. reflexivity.
Qed.

(** An open that succeeds leaves one descriptor open and closes none; one
    that fails leaves none. *)
Lemma Root_OpenFile_descriptors
    {osimp : OsImports} (r : Root) (name : string) (flag : Z) (perm : FileMode)
    (W : Type) (h : handler rootE W) (w : W) :
  let '(f, err, _, tr) := run h (Root_OpenFile r name flag perm) w in
  flat_map closedFd tr = []
  /\ flat_map openedFd tr = match err with
                            | None => [option_map fd f]
                            | Some _ => []
                            end.
Proof.
  unfold Root_OpenFile, Root_logOpen.
  destruct (negb (Z.eqb (Z.land perm 511) perm)); [cbn; split; reflexivity|].
  cbn [bind call run].
  destruct (h bool testlog_Logger w) as [log w1].
  destruct log; cbn [bind call run].
  - destruct (h string (root_Name r) w1) as [dirname w2].
    destruct (h unit (log_Open (joinPath dirname name)) w2) as [u w3].
    destruct (h _ (rootOpenFileNolog r name flag perm) w3) as [[rf0 err] w4].
    destruct err; cbn [bind call run]; [split; reflexivity|].
    destruct rf0; split; reflexivity.
  - destruct (h _ (rootOpenFileNolog r name flag perm) w1) as [[rf0 err] w4].
    destruct err; cbn [bind call run]; [split; reflexivity|].
    destruct rf0; split; reflexivity.
Qed.

Ltac close_after_open h r name flag perm w :=
  rewrite run_bind;
  pose proof (Root_OpenFile_descriptors r name flag perm _ h w) as Hopen;
  destruct (run h (Root_OpenFile r name flag perm) w) as [[[f err] w1] tr1];
  destruct Hopen as [Hc Ho];
  destruct err as [e|]; cbn [bind call run];
  [ cbn [snd]; rewrite app_nil_r; congruence | ];
  repeat (first
            [ match goal with
              | |- context [h ?T ?e0 ?w0] => destruct (h T e0 w0) as [? ?]
              end
            | match goal with
              | |- context [let (_, _) := ?p in _] => is_var p; destruct p
              end
            | match goal with
              | |- context [match ?x with Some _ => _ | None => _ end] =>
                  is_var x; destruct x
              end ];
          cbn [bind call run]);
  cbn [snd flat_map app closedFd openedFd];
  rewrite ?flat_map_app, ?Hc, ?Ho; cbn [flat_map app closedFd openedFd];
  reflexivity.

(** X15.  [ReadDir] and [ReadFile] of the adapter and [ReadFile] and
    [WriteFile] of the root close what they open: whatever the platform
    answers, the descriptors closed during the call are exactly the
    descriptors its opens returned, one close per successful open and none
    after a failed one. *)
Theorem Root_closes_what_it_opens
    {imp : Imports} {osimp : OsImports} (pf : Platform) (r : Root) (name : string)
    (data : list ascii) (perm : FileMode)
    (W : Type) (h : handler rootE W) (w : W) :
  flat_map closedFd (snd (run h (rootFS_ReadDir pf r name) w))
  = flat_map openedFd (snd (run h (rootFS_ReadDir pf r name) w))
  /\ flat_map closedFd (snd (run h (rootFS_ReadFile pf r name) w))
     = flat_map openedFd (snd (run h (rootFS_ReadFile pf r name) w))
  /\ flat_map closedFd (snd (run h (Root_ReadFile r name) w))
     = flat_map openedFd (snd (run h (Root_ReadFile r name) w))
  /\ flat_map closedFd (snd (run h (Root_WriteFile r name data perm) w))
     = flat_map openedFd (snd (run h (Root_WriteFile r name data perm) w)).
Proof.
  split; [|split; [|split]].
  - unfold rootFS_ReadDir, Root_Open.
    destruct (isValidRootFSPath pf name); cbn [negb]; [|reflexivity].
    close_after_open h r name O_RDONLY 0%Z w.
  - unfold rootFS_ReadFile, Root_Open.
    destruct (isValidRootFSPath pf name); cbn [negb]; [|reflexivity].
    close_after_open h r name O_RDONLY 0%Z w.
  - unfold Root_ReadFile, Root_Open.
    close_after_open h r name O_RDONLY 0%Z w.
  - unfold Root_WriteFile.
    close_after_open h r name (Z.lor (Z.lor O_WRONLY O_CREATE) O_TRUNC) perm w.
Qed.

(** X16.  [Root.WriteFile] opens with O_WRONLY|O_CREATE|O_TRUNC and the
    mode given; when the open fails it returns that error and writes nothing;
    otherwise it writes, closes the file whether or not the write failed, and
    returns the write's error when there is one and the close's error
    otherwise.  A mode outside 0o777 therefore fails before anything is
    touched. *)
Theorem Root_WriteFile_result
    {osimp : OsImports} (r : Root) (name : string) (data : list ascii)
    (perm : FileMode) (W : Type) (h : handler rootE W) (w : W) :
  (let '(f, oerr, w1, tr1) :=
     run h (Root_OpenFile r name (Z.lor (Z.lor O_WRONLY O_CREATE) O_TRUNC) perm) w in
   run h (Root_WriteFile r name data perm) w
   = match oerr with
     | Some _ => (oerr, w1, tr1)
     | None =>
         let '((n, werr), w2) := h _ (File_Write f data) w1 in
         let '(cerr, w3) := h _ (File_Close f) w2 in
         (match werr with Some _ => werr | None => cerr end, w3,
          tr1 ++ [issue (File_Write f data) (n, werr); issue (File_Close f) cerr])
     end)
  /\ (~ (0 <= perm <= 511)%Z ->
      Root_WriteFile r name data perm
      = Ret (Some (PathError "openat" name (errorString "unsupported file mode")))).
Proof.
  split.
  - unfold Root_WriteFile. rewrite run_bind.
    destruct (run h (Root_OpenFile r name _ perm) w) as [[[f oerr] w1] tr1].
    destruct oerr as [e|]; cbn [bind call run].
    + now rewrite app_nil_r.
    + destruct (h _ (File_Write f data) w1) as [[n werr] w2]. cbn [bind call run].
      destruct (h _ (File_Close f) w2) as [cerr w3].
      destruct werr; reflexivity.
  - intros Hperm.
    assert (H : Z.eqb (Z.land perm 511) perm = false).
    { apply Z.eqb_neq. intros H. apply Hperm. now apply land_511_small. }
    unfold Root_WriteFile, Root_OpenFile. rewrite H. reflexivity.
Qed.

Lemma Root_WriteFile_result_witness :
  Root_WriteFile (osimp := spec_os_imports) 0 "f" [] 1024%Z
  = Ret (Some (PathError "openat" "f" (errorString "unsupported file mode"))).
Proof.
  refine (proj2 (Root_WriteFile_result (osimp := spec_os_imports) 0 "f" [] 1024%Z
                   unit (stubPlatform []) tt) _).
  intros [_ H]. exact (H eq_refl).
Defined.

(** ** Glob on every answer of the store *)

Lemma prefix_app (p rest : string) : String.prefix p (p ++ rest) = true.
Proof.
  induction p as [|a p IH]; simpl; [destruct rest; reflexivity|].
  destruct (ascii_dec a a) as [_ | Hne]; [exact IH | congruence].
Qed.

Lemma prefix_split (p : string) :
  forall m, String.prefix p m = true -> exists rest, m = (p ++ rest)%string.
Proof.
  induction p as [|a p IH]; intros m H.
  - exists m. reflexivity.
  - destruct m as [|b m]; [discriminate|]. simpl in H.
    destruct (ascii_dec a b) as [-> | Hne]; [|discriminate].
    destruct (IH m H) as [rest ->]. exists rest. reflexivity.
Qed.

(** [below] says what it is meant to say. *)
Lemma below_spec (d m : string) :
  below d m = true
  <-> m = d \/ exists rel, rel <> EmptyString /\ m = (d ++ "/" ++ rel)%string.
Proof.
  unfold below. split.
  - intros H. apply orb_true_iff in H. destruct H as [H | H].
    + left. now apply String.eqb_eq.
    + right. apply andb_true_iff in H. destruct H as [Hp Hl].
      apply prefix_split in Hp. destruct Hp as [rest ->].
      apply Nat.ltb_lt in Hl. rewrite !len_append in Hl. simpl in Hl.
      exists rest. split; [|now rewrite string_app_assoc].
      intros ->. simpl in Hl. lia.
  - intros [-> | (rel & Hne & ->)]; apply orb_true_iff.
    + left. apply String.eqb_refl.
    + right. apply andb_true_iff. split.
      * rewrite <- string_app_assoc. apply prefix_app.
      * apply Nat.ltb_lt. rewrite !len_append. simpl.
        destruct rel; [congruence | simpl; lia].
Qed.

Lemma forallb_below_accepted (d : string) (names : list string) :
  forallb (below d) names = true ->
  Forall (fun m => m = d
                   \/ exists rel, rel <> EmptyString /\ m = (d ++ "/" ++ rel)%string)
         names.
Proof.
  intros H. apply Forall_forall. intros m Hm.
  rewrite forallb_forall in H. now apply below_spec, H.
Qed.

Lemma shorten_refuses (f : subFS) (m : string) :
  below (dir f) m = false -> shorten f m = (EmptyString, false).
Proof.
  intros Hb. destruct (shorten f m) as [rel ok] eqn:Hs. destruct ok.
  - apply shorten_accepts in Hs.
    assert (below (dir f) m = true).
    { apply below_spec. destruct Hs as [[-> _] | [Hne ->]]; [now left | right; eauto]. }
    congruence.
  - unfold shorten in Hs.
    destruct (String.eqb m (dir f)); [discriminate|].
    destruct (_ && _ && _); [discriminate|]. congruence.
Qed.

Lemma shortenAll_refuses (f : subFS) (names : list string) :
  forallb (below (dir f)) names = false ->
  shortenAll f names
  = ([], Some (errorString
                 ("invalid result from inner fsys Glob: " ++ EmptyString ++ " not in " ++ dir f)%string)).
Proof.
  induction names as [|m names IH]; [discriminate|].
  cbn [forallb shortenAll]. intros H.
  destruct (below (dir f) m) eqn:Hb.
  - cbn [andb] in H. rewrite (IH H).
    destruct (shorten f m) as [rel ok] eqn:Hs. destruct ok; [reflexivity|].
    apply below_spec in Hb. destruct Hb as [-> | (rel0 & Hne & ->)].
    + unfold shorten in Hs. rewrite String.eqb_refl in Hs. discriminate.
    + rewrite shorten_prefixed in Hs by assumption. discriminate.
  - rewrite (shorten_refuses f m Hb). reflexivity.
Qed.

Lemma prefix_false_not_below (d m : string) :
  String.prefix d m = false -> below d m = false.
Proof.
  intros Hp. destruct (below d m) eqn:Hb; [|reflexivity].
  apply below_spec in Hb.
  assert (String.prefix d m = true); [|congruence].
  destruct Hb as [-> | (rel & _ & ->)].
  - rewrite <- (string_app_nil_r d) at 2. apply prefix_app.
  - apply prefix_app.
Qed.

(** C7.  When the pattern is well formed and is not ".", [Glob] asks the
    wrapped store for the prefixed pattern, once, and what it returns is
    decided by the matches alone.  If every match is the directory itself or
    the directory, a slash and a non-empty rest, it returns one name per
    match, in order: the rest with the directory and the slash stripped ("."
    for the directory itself), and the store's error through [fixErr]; in
    particular matches [dir/rest] come back as exactly the rests.  If any
    match is anything else, whether it does not begin with the directory at
    all, or begins with it but has no slash after it ("xy/2.txt" under "x"),
    or has nothing after the slash, it returns no list and the error "invalid
    result from inner fsys Glob". *)
Theorem subFS_Glob_strips_prefix_or_fails
    {imp : Imports} (f : subFS) (pattern : string)
    (W : Type) (h : handler fsE W) (w w' : W)
    (names : list string) (err : option error) :
  path_Match_err pattern = None ->
  pattern <> "." ->
  h _ (Fs_Glob (fsys f) (dir f ++ "/" ++ pattern)) w = ((names, err), w') ->
  let tr := [issue (Fs_Glob (fsys f) (dir f ++ "/" ++ pattern)) (names, err)] in
  let bad := Some (errorString
                     ("invalid result from inner fsys Glob: " ++ EmptyString ++ " not in " ++ dir f)%string) in
  (forallb (below (dir f)) names = true ->
   exists rels,
     run h (subFS_Glob f pattern) w = ((rels, fixErr f err), w', tr)
     /\ Forall2 (fun m rel => (m = dir f /\ rel = ".")
                              \/ (rel <> EmptyString /\ m = (dir f ++ "/" ++ rel)%string))
                names rels)
  /\ (forallb (below (dir f)) names = false ->
      run h (subFS_Glob f pattern) w = (([], bad), w', tr))
  /\ (forall rels,
        Forall (fun rel => rel <> EmptyString) rels ->
        names = map (fun rel => dir f ++ "/" ++ rel)%string rels ->
        run h (subFS_Glob f pattern) w = ((rels, fixErr f err), w', tr))
  /\ ((exists m, In m names /\ String.prefix (dir f) m = false) ->
      run h (subFS_Glob f pattern) w = (([], bad), w', tr)).
Proof.
  intros Hwf Hdot Hreply tr bad. subst tr bad.
  apply String.eqb_neq in Hdot.
  assert (Hrun : run h (subFS_Glob f pattern) w
                 = (let '(names', e) := shortenAll f names in
                    (match e with
                     | Some _ => ([], e)
                     | None => (names', fixErr f err)
                     end, w',
                     [issue (Fs_Glob (fsys f) (dir f ++ "/" ++ pattern)) (names, err)]))).
  { unfold subFS_Glob. rewrite Hwf, Hdot. cbn [bind call run]. rewrite Hreply.
    destruct (shortenAll f names) as [names' [e|]]; reflexivity. }
  rewrite Hrun. clear Hrun.
  split; [|split; [|split]].
  - intros Hall.
    destruct (shortenAll_accepts f names (forallb_below_accepted _ _ Hall))
      as (rels & -> & HF).
    exists rels. split; [reflexivity | exact HF].
  - intros Hbad. now rewrite shortenAll_refuses.
  - intros rels Hrels ->. now rewrite shortenAll_prefixed.
  - intros (m & Hin & Hp). rewrite shortenAll_refuses; [reflexivity|].
    destruct (forallb (below (dir f)) names) eqn:Hall; [|reflexivity].
    rewrite forallb_forall in Hall. specialize (Hall m Hin).
    now rewrite (prefix_false_not_below _ _ Hp) in Hall.
Qed.

Lemma subFS_Glob_strips_prefix_or_fails_witness :
  (exists rels,
     run (stubStore EmptyString ["x/1.txt"; "x"; "x/2.txt"])
         (subFS_Glob (imp := spec_imports) xSub "*") tt
     = ((rels, None), tt,
        [issue (Fs_Glob (StoreFS 0) "x/*") (["x/1.txt"; "x"; "x/2.txt"], None)])
     /\ Forall2 (fun m rel => (m = "x"%string /\ rel = ".")
                              \/ (rel <> EmptyString /\ m = ("x" ++ "/" ++ rel)%string))
                ["x/1.txt"; "x"; "x/2.txt"] rels)
  /\
  run (stubStore EmptyString ["x/1.txt"; "xy/2.txt"])
      (subFS_Glob (imp := spec_imports) xSub "*.txt") tt
  = (([], Some (errorString "invalid result from inner fsys Glob:  not in x")), tt,
     [issue (Fs_Glob (StoreFS 0) "x/*.txt") (["x/1.txt"; "xy/2.txt"], None)])
  /\
  run (stubStore EmptyString ["x/1.txt"; "x/"])
      (subFS_Glob (imp := spec_imports) xSub "*.txt") tt
  = (([], Some (errorString "invalid result from inner fsys Glob:  not in x")), tt,
     [issue (Fs_Glob (StoreFS 0) "x/*.txt") (["x/1.txt"; "x/"], None)]).
Proof.
  assert (Hstar : "*"%string <> "."%string)
    by (intros H; exact (eq_ind "*"%string
          (fun s => match s with String "*" _ => True | _ => False end) I _ H)).
  assert (Htxt : "*.txt"%string <> "."%string)
    by (intros H; exact (eq_ind "*.txt"%string
          (fun s => match s with String "*" _ => True | _ => False end) I _ H)).
  split; [|split].
  - exact (proj1 (subFS_Glob_strips_prefix_or_fails (imp := spec_imports) xSub "*"
                    unit (stubStore EmptyString ["x/1.txt"; "x"; "x/2.txt"]) tt tt
                    ["x/1.txt"; "x"; "x/2.txt"] None eq_refl Hstar eq_refl)
                 eq_refl).
  - exact (proj1 (proj2 (subFS_Glob_strips_prefix_or_fails (imp := spec_imports)
                           xSub "*.txt" unit
                           (stubStore EmptyString ["x/1.txt"; "xy/2.txt"]) tt tt
                           ["x/1.txt"; "xy/2.txt"] None eq_refl Htxt eq_refl))
                 eq_refl).
  - exact (proj1 (proj2 (subFS_Glob_strips_prefix_or_fails (imp := spec_imports)
                           xSub "*.txt" unit
                           (stubStore EmptyString ["x/1.txt"; "x/"]) tt tt
                           ["x/1.txt"; "x/"] None eq_refl Htxt eq_refl))
                 eq_refl).
Defined.

(** ** ReadDir on every answer of the platform *)

(** C9.  [ReadDir] of the adapter, step by step.  An invalid name is
    refused without a call.  For a valid name the directory is opened with
    [Root.Open]; when that fails, its error is returned and nothing is read.
    Otherwise the open file is read once with [ReadDir(-1)] and then closed,
    and the entries returned are the entries that read answered, sorted after
    they were collected: the same entries (a permutation), in byte-wise
    ascending order of their names, together with the read's own error. *)
Theorem rootFS_ReadDir_sorted_by_name
    {imp : Imports} {osimp : OsImports} (pf : Platform) (r : Root) (name : string)
    (W : Type) (h : handler rootE W) (w : W) :
  (isValidRootFSPath pf name = false ->
   run h (rootFS_ReadDir pf r name) w
   = (([], Some (PathError "readdir" name ErrInvalid)), w, []))
  /\
  (isValidRootFSPath pf name = true ->
   let '(f, oerr, w1, tr1) := run h (Root_Open r name) w in
   match oerr with
   | Some _ => run h (rootFS_ReadDir pf r name) w = (([], oerr), w1, tr1)
   | None =>
       let '((raw, rerr), w2) := h _ (File_ReadDir f (-1)%Z) w1 in
       let '(cerr, w3) := h _ (File_Close f) w2 in
       exists dirs,
         run h (rootFS_ReadDir pf r name) w
         = ((dirs, rerr), w3,
            tr1 ++ [issue (File_ReadDir f (-1)%Z) (raw, rerr);
                    issue (File_Close f) cerr])
         /\ dirs = SortFunc raw (fun a b => CompareString (Name a) (Name b))
         /\ Permutation raw dirs
         /\ StronglySorted nameLe dirs
   end).
Proof.
  split; intros Hv; unfold rootFS_ReadDir; rewrite Hv; cbn [negb].
  - reflexivity.
  - rewrite run_bind.
    destruct (run h (Root_Open r name) w) as [[[f oerr] w1] tr1].
    destruct oerr as [e|]; cbn [bind call run].
    + now rewrite app_nil_r.
    + destruct (h _ (File_ReadDir f (-1)%Z) w1) as [[raw rerr] w2].
      cbn [bind call run].
      destruct (h _ (File_Close f) w2) as [cerr w3].
      exists (SortFunc raw (fun a b => CompareString (Name a) (Name b))).
      split; [reflexivity|]. split; [reflexivity|].
      split; [apply SortFunc_perm | apply SortFunc_by_name_sorted].
Qed.

Lemma rootFS_ReadDir_sorted_by_name_witness :
  exists dirs,
    run (stubPlatform [ {| Name := "b"; IsDir := false; Type_ := 0%Z |};
                        {| Name := "a/"; IsDir := true; Type_ := 0%Z |};
                        {| Name := "a"; IsDir := false; Type_ := 0%Z |} ])
        (rootFS_ReadDir (imp := spec_imports) (osimp := spec_os_imports) unix 0 "dir") tt
    = ((dirs, None), tt,
       [issue testlog_Logger false;
        issue (rootOpenFileNolog 0 "dir" O_RDONLY 0%Z)
              (Some {| fd := 3; appendMode := false |}, None)]
       ++ [issue (File_ReadDir (Some {| fd := 3; appendMode := false |}) (-1)%Z)
                 ([ {| Name := "b"; IsDir := false; Type_ := 0%Z |};
                    {| Name := "a/"; IsDir := true; Type_ := 0%Z |};
                    {| Name := "a"; IsDir := false; Type_ := 0%Z |} ], None);
           issue (File_Close (Some {| fd := 3; appendMode := false |})) None])
    /\ dirs = SortFunc [ {| Name := "b"; IsDir := false; Type_ := 0%Z |};
                         {| Name := "a/"; IsDir := true; Type_ := 0%Z |};
                         {| Name := "a"; IsDir := false; Type_ := 0%Z |} ]
                       (fun a b => CompareString (Name a) (Name b))
    /\ Permutation [ {| Name := "b"; IsDir := false; Type_ := 0%Z |};
                     {| Name := "a/"; IsDir := true; Type_ := 0%Z |};
                     {| Name := "a"; IsDir := false; Type_ := 0%Z |} ] dirs
    /\ StronglySorted nameLe dirs.
Proof.
  exact (proj2 (rootFS_ReadDir_sorted_by_name (imp := spec_imports)
                  (osimp := spec_os_imports) unix 0 "dir" unit
                  (stubPlatform [ {| Name := "b"; IsDir := false; Type_ := 0%Z |};
                                  {| Name := "a/"; IsDir := true; Type_ := 0%Z |};
                                  {| Name := "a"; IsDir := false; Type_ := 0%Z |} ]) tt)
               eq_refl).
Defined.

Example rootFS_ReadDir_sorted_example :
  fst (fst (fst
    (run (stubPlatform [ {| Name := "b"; IsDir := false; Type_ := 0%Z |};
                         {| Name := "a/"; IsDir := true; Type_ := 0%Z |};
                         {| Name := "a"; IsDir := false; Type_ := 0%Z |} ])
         (rootFS_ReadDir (imp := spec_imports) (osimp := spec_os_imports) unix 0 "dir")
         tt)))
  = [ {| Name := "a"; IsDir := false; Type_ := 0%Z |};
      {| Name := "a/"; IsDir := true; Type_ := 0%Z |};
      {| Name := "b"; IsDir := false; Type_ := 0%Z |} ].
Proof. reflexivity. Qed.
